(** * moui: the widget view render pipeline, hit testing and redraw trigger

    A shallow embedding of

    - [src/moui/widgets/widget_view.cc]  (WidgetView: PopulateWidgetList,
      PopAndFinalizeWidgetItems, Render, ShouldHandleEvent,
      WidgetViewWillRender, WidgetViewDidRender),
    - [src/moui/widgets/widget.cc]       (Widget::AddChild),
    - [src/unnamed/part_001]             (BaseView::Redraw),

    followed by the properties the specification states about them.

    Conventions.
    - The C++ type [float] is read as the rationals [Q]; infinities and NaN
      are not modelled.  [PlanItem] and [PopulateWidgetList] compute without
      rounding, and the concrete inputs of Part II only involve small
      integers, on which binary32 arithmetic is exact.  [PlanItem_rounded]
      and [PopulateWidgetList_rounded] are the same functions with every
      operation rounded; the properties of Part III that rest on the
      arithmetic of the planner are stated of them, for every rounding.
    - [int level] is read as [Z]; it starts at 0 and grows by one per tree
      level, so no wrap-around is involved.
    - A [Widget*] of the widget tree is read as the widget it points to, with
      its children; the field [addr] stands for the pointer value and is what
      pointer comparisons and statements about "the same widget" use.
    - Calls into nanovg and into the virtual hooks of a widget are recorded
      as a list of [Call]s, in program order.  The hooks are taken not to
      change the tree while Render or ShouldHandleEvent runs, and
      [Widget::ShouldHandleEvent(location)] to be a test without effects.

    Part I holds the embedding, Parts II and III the properties. *)

(** * Part I: the embedding *)

From Stdlib Require Import QArith Qminmax ZArith List Bool Lia Lqa Permutation.
From stdpp Require Import gmap.
Import ListNotations.

Local Open Scope Q_scope.

(** ** Numbers *)

Abbreviation float := Q.

(** [a <= b] and [a < b] on floats, as the tests of the source. *)
Definition fle (a b : float) : bool := Qle_bool a b.
Definition flt (a b : float) : bool := negb (Qle_bool b a).

(** [std::max(a, b)] is [b] when [a < b] and [a] otherwise; [std::min(a, b)]
    is [b] when [b < a] and [a] otherwise. *)
Definition std_max (a b : float) : float := if flt a b then b else a.
Definition std_min (a b : float) : float := if flt b a then b else a.

Record Point : Type := MkPoint { x : float; y : float }.

(** ** Widgets (widget.h)

    The resolved geometry ([GetX], [GetY], [GetWidth], [GetHeight]) is what
    the accessors of the same name return for the widget; their unit
    resolution is not part of the sources at hand.  [handles] is the virtual
    [Widget::ShouldHandleEvent(location)]. *)
#[warnings="-register-all"]
Inductive Widget : Type := MkWidget {
  addr : nat;
  IsHidden : bool;
  GetX : float;
  GetY : float;
  GetWidth : float;
  GetHeight : float;
  scale_ : float;
  handles : Point -> bool;
  children : list Widget
}.

(** Structural induction that also covers the children. *)
Section WidgetInduction.
Variable P : Widget -> Prop.
Hypothesis step : forall w, Forall P (children w) -> P w.

Fixpoint Widget_forall_ind (w : Widget) : P w :=
  step w
    (match w as w0 return Forall P (children w0) with
     | MkWidget _ _ _ _ _ _ _ _ cs =>
         (fix children_ok (l : list Widget) : Forall P l :=
            match l with
            | [] => @List.Forall_nil _ P
            | c :: l' => @List.Forall_cons _ P c l' (Widget_forall_ind c) (children_ok l')
            end) cs
     end).
End WidgetInduction.

(** All widgets of a tree, parent first, children in insertion order. *)
Fixpoint preorder (w : Widget) : list Widget :=
  w :: flat_map preorder (children w).

(** The same walk with the depth of every widget. *)
Fixpoint preorder_depth (d : Z) (w : Widget) : list (Z * Widget) :=
  (d, w) :: flat_map (preorder_depth (d + 1)) (children w).

(** The widgets strictly below [w]. *)
Definition descendants (w : Widget) : list Widget :=
  flat_map preorder (children w).

(** Distinct objects have distinct addresses. *)
Definition distinct_widgets (w : Widget) : Prop :=
  NoDup (map addr (preorder w)).

(** ** Render items (the struct WidgetItem of widget_view.h, as it is
    initialised in PopulateWidgetList) *)
#[warnings="-register-all"]
Inductive WidgetItem : Type := MkWidgetItem {
  item_widget : Widget;
  item_origin : Point;
  item_width : float;
  item_height : float;
  item_level : Z;
  item_parent_item : option WidgetItem;
  item_scale : float;
  item_translated_origin : Point;
  item_scissor_origin : Point;
  item_scissor_width : float;
  item_scissor_height : float
}.

Definition WidgetList := list WidgetItem.
Definition WidgetItemStack := list WidgetItem.   (* top of the stack first *)

(** ** The widget view *)
Record WidgetView : Type := MkWidgetView {
  view_width : float;                 (* GetWidth() of the native view *)
  view_height : float;                (* GetHeight() of the native view *)
  root_widget_ : Widget;
  event_responder_ : option Widget    (* nullptr is None *)
}.

Section Planner.
Variable view : WidgetView.

(** Lines 84-140 of PopulateWidgetList: the item built for [widget], or
    [None] where the source returns before the push_back. *)
Definition PlanItem (level : Z) (scale : float) (widget : Widget)
    (parent_item : option WidgetItem) : option WidgetItem :=
  if IsHidden widget then None else
  let kWidgetWidth := GetWidth widget in
  if fle kWidgetWidth 0 then None else
  let kWidgetHeight := GetHeight widget in
  if fle kWidgetHeight 0 then None else
  let kWidgetX := GetX widget in
  let kWidgetY := GetY widget in
  let kScaledWidgetWidth := kWidgetWidth * scale * scale_ widget in
  let kScaledWidgetHeight := kWidgetHeight * scale * scale_ widget in
  match parent_item with
  | None =>
      Some (MkWidgetItem widget (MkPoint kWidgetX kWidgetY) kWidgetWidth
              kWidgetHeight level None (scale_ widget)
              (MkPoint 0 0) (MkPoint 0 0)
              kScaledWidgetWidth kScaledWidgetHeight)
  | Some parent =>
      let translated_x := x (item_translated_origin parent) + kWidgetX * scale in
      let translated_y := y (item_translated_origin parent) + kWidgetY * scale in
      let scissor_x := std_max (x (item_scissor_origin parent)) translated_x in
      if fle (view_width view) scissor_x then None else
      let scissor_y := std_max (y (item_scissor_origin parent)) translated_y in
      if fle (view_height view) scissor_y then None else
      if flt (translated_x + kScaledWidgetWidth - 1) scissor_x
         || flt (translated_y + kScaledWidgetHeight - 1) scissor_y
      then None else
      let kParentOriginX := x (item_scissor_origin parent) in
      let scissor_width :=
        std_min kScaledWidgetWidth
                (kParentOriginX + item_scissor_width parent - scissor_x) in
      let scissor_width :=
        std_min scissor_width
                (scissor_x + kScaledWidgetWidth - kParentOriginX) in
      if fle scissor_width 0 || flt (scissor_x + scissor_width - 1) 0
      then None else
      let kParentOriginY := y (item_scissor_origin parent) in
      let scissor_height :=
        std_min kScaledWidgetHeight
                (kParentOriginY + item_scissor_height parent - scissor_y) in
      let scissor_height :=
        std_min scissor_height
                (scissor_y + kScaledWidgetHeight - kParentOriginY) in
      if fle scissor_height 0 || flt (scissor_y + scissor_height - 1) 0
      then None else
      Some (MkWidgetItem widget (MkPoint kWidgetX kWidgetY) kWidgetWidth
              kWidgetHeight level parent_item (scale_ widget)
              (MkPoint translated_x translated_y)
              (MkPoint scissor_x scissor_y)
              scissor_width scissor_height)
  end.

(** PopulateWidgetList: [widget_list] is the list being filled, the result
    is the list after the call. *)
Fixpoint PopulateWidgetList (level : Z) (scale : float)
    (widget_list : WidgetList) (widget : Widget)
    (parent_item : option WidgetItem) {struct widget} : WidgetList :=
  match PlanItem level scale widget parent_item with
  | None => widget_list
  | Some item =>
      let kChildWidgetScale := scale * scale_ widget in
      (fix each_child (cs : list Widget) (widget_list : WidgetList) : WidgetList :=
         match cs with
         | [] => widget_list
         | child :: cs' =>
             each_child cs'
               (PopulateWidgetList (level + 1) kChildWidgetScale widget_list
                                   child (Some item))
         end) (children widget) (widget_list ++ [item])
  end.
End Planner.

Arguments PlanItem : simpl never.

(** The list planned for one widget, from an empty list. *)
Definition plan (view : WidgetView) (level : Z) (scale : float)
    (parent_item : option WidgetItem) (widget : Widget) : WidgetList :=
  PopulateWidgetList view level scale [] widget parent_item.

(** The rectangle intersection of the specification: the overlap of
    (x1, y1, w1, h1) and (x2, y2, w2, h2) as origin, width and height. *)
Record Rect : Type := MkRect { rx : float; ry : float; rw : float; rh : float }.

Definition rect_intersection (a b : Rect) : Rect :=
  let left := Qmax (rx a) (rx b) in
  let top := Qmax (ry a) (ry b) in
  let right := Qmin (rx a + rw a) (rx b + rw b) in
  let bottom := Qmin (ry a + rh a) (ry b + rh b) in
  MkRect left top (right - left) (bottom - top).

Definition rect_eq (a b : Rect) : Prop :=
  rx a == rx b /\ ry a == ry b /\ rw a == rw b /\ rh a == rh b.

Definition scissor_rect (item : WidgetItem) : Rect :=
  MkRect (x (item_scissor_origin item)) (y (item_scissor_origin item))
         (item_scissor_width item) (item_scissor_height item).

(** The scaled bounding rectangle of an item's widget in view coordinates,
    [scale] being the scale inherited from the ancestors. *)
Definition scaled_bounds (scale : float) (item : WidgetItem) : Rect :=
  MkRect (x (item_translated_origin item)) (y (item_translated_origin item))
         (item_width item * scale * item_scale item)
         (item_height item * scale * item_scale item).


Definition level_and_widget (item : WidgetItem) : Z * Widget :=
  (item_level item, item_widget item).

(** The depth of the widget at address [a] in the tree under [root]. *)
Definition depth_of (root : Widget) (a : nat) : option Z :=
  option_map fst
    (find (fun dw => Nat.eqb (addr (snd dw)) a) (preorder_depth 0 root)).

(** The list Render plans: PopulateWidgetList(0, 1, &widget_list,
    root_widget_, nullptr) on an empty list. *)
Definition Render_widget_list (view : WidgetView) : WidgetList :=
  PopulateWidgetList view 0 1 [] (root_widget_ view) None.

(** The same recursion as PopulateWidgetList with the item of a widget put
    behind the items of its children: the post-order of the planned tree. *)
Fixpoint plan_postorder (view : WidgetView) (level : Z) (scale : float)
    (parent_item : option WidgetItem) (widget : Widget) {struct widget}
    : WidgetList :=
  match PlanItem view level scale widget parent_item with
  | None => []
  | Some item =>
      flat_map (plan_postorder view (level + 1) (scale * scale_ widget) (Some item))
               (children widget)
      ++ [item]
  end.

(** ** The render executor *)

(** What the drawing context and the hooks of the widgets are asked to do.
    A widget is named by its address. *)
Inductive Call : Type :=
| nvgSave
| nvgRestore
| nvgTranslate (x y : float)
| nvgScale (x y : float)
| nvgIntersectScissor (x y w h : float)
| nvgBeginFrame (width height : float)
| nvgEndFrame
| Widget_RenderDefaultFramebuffer (widget : nat)
| Widget_WidgetWillRender (widget : nat)
| Widget_RenderOnDemand (widget : nat)
| Widget_WidgetDidRender (widget : nat)
| Widget_WidgetViewWillRender (widget : nat)
| Widget_WidgetViewDidRender (widget : nat)
| ViewWillRender
| ViewDidRender.

(** The state the onscreen pass of Render works on: the rendering stack and
    the calls made so far, oldest first.  [finalized] is a ghost field: every
    item PopAndFinalizeWidgetItems has finalized, in order, each with the
    items that were still on the stack below it. *)
Record RenderState : Type := MkRenderState {
  rendering_stack : WidgetItemStack;
  calls : list Call;
  finalized : list (WidgetItem * WidgetItemStack)
}.

(** The while loop of PopAndFinalizeWidgetItems over the stack. *)
Fixpoint PopAndFinalize_loop (level : Z) (stack : WidgetItemStack)
    (calls : list Call) (finalized : list (WidgetItem * WidgetItemStack))
    : RenderState :=
  match stack with
  | [] => MkRenderState [] calls finalized
  | top_item :: rest =>
      if (item_level top_item <? level)%Z
      then MkRenderState stack calls finalized
      else PopAndFinalize_loop level rest
             (calls ++ [Widget_WidgetDidRender (addr (item_widget top_item));
                        nvgRestore])
             (finalized ++ [(top_item, rest)])
  end.

Definition PopAndFinalizeWidgetItems (level : Z) (st : RenderState)
    : RenderState :=
  PopAndFinalize_loop level (rendering_stack st) (calls st) (finalized st).

(** One round of the onscreen loop of Render (lines 174-183). *)
Definition Render_item (st : RenderState) (item : WidgetItem) : RenderState :=
  let st := PopAndFinalizeWidgetItems (item_level item) st in
  MkRenderState
    (item :: rendering_stack st)
    (calls st ++
       [nvgSave;
        nvgTranslate (x (item_origin item)) (y (item_origin item));
        nvgScale (item_scale item) (item_scale item);
        nvgIntersectScissor 0 0 (item_width item) (item_height item);
        Widget_WidgetWillRender (addr (item_widget item));
        nvgSave;
        Widget_RenderOnDemand (addr (item_widget item));
        nvgRestore])
    (finalized st).

(** Lines 172-185: the loop over the widget list and the closing
    PopAndFinalizeWidgetItems(0, &rendering_stack). *)
Definition Render_onscreen (widget_list : WidgetList) (st : RenderState)
    : RenderState :=
  PopAndFinalizeWidgetItems 0 (fold_left Render_item widget_list st).

Definition fresh_render_state : RenderState := MkRenderState [] [] [].

(** The items finalized by a run, in the order of their WidgetDidRender. *)
Definition did_render_order (st : RenderState) : list WidgetItem :=
  map fst (finalized st).

(** The addresses of the widgets whose WidgetDidRender a call list holds. *)
Definition did_render_calls (cs : list Call) : list nat :=
  flat_map (fun c => match c with Widget_WidgetDidRender a => [a] | _ => [] end) cs.

(** ** The tree-wide passes before and after rendering *)

Section ViewPasses.
Variable view : WidgetView.

(** [widget == root_widget_] compares pointers. *)
Definition is_root (widget : Widget) : bool :=
  Nat.eqb (addr widget) (addr (root_widget_ view)).

Fixpoint WidgetViewDidRender (widget : Widget) : list Call :=
  [nvgSave;
   if is_root widget then ViewDidRender
   else Widget_WidgetViewDidRender (addr widget);
   nvgRestore]
  ++ flat_map WidgetViewDidRender (children widget).

Fixpoint WidgetViewWillRender (widget : Widget) : list Call :=
  [nvgSave;
   if is_root widget then ViewWillRender
   else Widget_WidgetViewWillRender (addr widget);
   nvgRestore]
  ++ flat_map WidgetViewWillRender (children widget).

(** Render, once context_ exists (lines 154-189).  The OpenGL calls that set
    up the frame are not recorded. *)
Definition Render : list Call :=
  let widget_list := Render_widget_list view in
  WidgetViewWillRender (root_widget_ view)
  ++ map (fun item => Widget_RenderDefaultFramebuffer (addr (item_widget item)))
         widget_list
  ++ [nvgBeginFrame (view_width view) (view_height view)]
  ++ calls (Render_onscreen widget_list fresh_render_state)
  ++ [nvgEndFrame]
  ++ WidgetViewDidRender (root_widget_ view).
End ViewPasses.

(** ** Hit testing *)

(** A loop that returns true from its first round that says so. *)
Fixpoint first_true {A S : Type} (body : A -> S -> bool * S) (l : list A)
    (s : S) : bool * S :=
  match l with
  | [] => (false, s)
  | a :: l' =>
      let (r, s') := body a s in
      if r then (true, s') else first_true body l' s'
  end.

(** WidgetView::ShouldHandleEvent(location, widget): the result and the
    event_responder_ it leaves.  The source walks the children from rbegin()
    to rend(); [from_back] does the rounds of the later children before the
    round of the first one, which is the same order (see
    [ShouldHandleEvent_eq]). *)
Fixpoint ShouldHandleEvent (location : Point) (widget : Widget)
    (event_responder_ : option Widget) {struct widget} : bool * option Widget :=
  if IsHidden widget then (false, event_responder_) else
  (fix from_back (cs : list Widget) (event_responder_ : option Widget)
     : bool * option Widget :=
     match cs with
     | [] => (false, event_responder_)
     | child :: later =>
         let (done, event_responder_) := from_back later event_responder_ in
         if done then (true, event_responder_) else
         let (by_child, event_responder_) :=
           ShouldHandleEvent location child event_responder_ in
         if by_child then (true, event_responder_) else
         if handles child location then (true, Some child) else
         (false, event_responder_)
     end) (children widget) event_responder_.

(** One round of the loop of ShouldHandleEvent. *)
Definition ShouldHandleEvent_round (location : Point) (child : Widget)
    (event_responder_ : option Widget) : bool * option Widget :=
  let (by_child, event_responder_) :=
    ShouldHandleEvent location child event_responder_ in
  if by_child then (true, event_responder_) else
  if handles child location then (true, Some child) else
  (false, event_responder_).

(** WidgetView::ShouldHandleEvent(location): starts at root_widget_. *)
Definition WidgetView_ShouldHandleEvent (view : WidgetView) (location : Point)
    : bool * WidgetView :=
  let (r, responder) :=
    ShouldHandleEvent location (root_widget_ view) (event_responder_ view) in
  (r, MkWidgetView (view_width view) (view_height view) (root_widget_ view)
                   responder).

(** The order of the walk as the specification words it: the children of a
    widget from the last added to the first, and for each child what is below
    it before the child itself. *)
Fixpoint hit_order (widget : Widget) : list Widget :=
  (fix from_back (cs : list Widget) : list Widget :=
     match cs with
     | [] => []
     | child :: later => from_back later ++ hit_order child ++ [child]
     end) (children widget).

(** The same order without what is below a hidden widget. *)
Fixpoint hit_order_shown (widget : Widget) : list Widget :=
  if IsHidden widget then [] else
  (fix from_back (cs : list Widget) : list Widget :=
     match cs with
     | [] => []
     | child :: later => from_back later ++ hit_order_shown child ++ [child]
     end) (children widget).

(** The first widget of a list whose own hit test accepts the location. *)
Definition first_hit (location : Point) (l : list Widget) : option Widget :=
  find (fun w => handles w location) l.

(** *** The stack discipline of the executor, without the calls *)

(** What PopAndFinalizeWidgetItems(level, stack) pops and what it leaves. *)
Fixpoint popped (level : Z) (stack : WidgetItemStack) : list WidgetItem :=
  match stack with
  | [] => []
  | top_item :: rest =>
      if (item_level top_item <? level)%Z then []
      else top_item :: popped level rest
  end.

Fixpoint kept (level : Z) (stack : WidgetItemStack) : WidgetItemStack :=
  match stack with
  | [] => []
  | top_item :: rest =>
      if (item_level top_item <? level)%Z then stack else kept level rest
  end.

(** The ghost entries for the items popped off [pop ++ below]. *)
Fixpoint finalize_log (pop below : list WidgetItem)
    : list (WidgetItem * WidgetItemStack) :=
  match pop with
  | [] => []
  | top_item :: rest => (top_item, rest ++ below) :: finalize_log rest below
  end.

Definition did_render_hooks (items : list WidgetItem) : list Call :=
  flat_map (fun item => [Widget_WidgetDidRender (addr (item_widget item));
                         nvgRestore]) items.

(** The stack and the finalized items of a state. *)
Definition StackAndDone : Type := (WidgetItemStack * list WidgetItem)%type.

Definition stack_and_done (st : RenderState) : StackAndDone :=
  (rendering_stack st, did_render_order st).

Definition close_from (level : Z) (sd : StackAndDone) : StackAndDone :=
  (kept level (fst sd), snd sd ++ popped level (fst sd)).

Definition open_item (sd : StackAndDone) (item : WidgetItem) : StackAndDone :=
  let sd := close_from (item_level item) sd in (item :: fst sd, snd sd).

(** Nothing on the stack is at [level] or deeper at its top. *)
Definition closed_at (level : Z) (stack : WidgetItemStack) : Prop :=
  match stack with
  | [] => True
  | top_item :: _ => (item_level top_item < level)%Z
  end.

(** Deeper items lie above shallower ones. *)
Fixpoint deepest_on_top (stack : WidgetItemStack) : Prop :=
  match stack with
  | [] => True
  | top_item :: rest =>
      Forall (fun lower => (item_level lower < item_level top_item)%Z) rest
      /\ deepest_on_top rest
  end.

Definition is_save (c : Call) : bool :=
  match c with nvgSave => true | _ => false end.

Definition is_restore (c : Call) : bool :=
  match c with nvgRestore => true | _ => false end.

(** Every finalized item is deeper than everything that was still open. *)
Definition deepest_open_first (log : list (WidgetItem * WidgetItemStack)) : Prop :=
  Forall (fun entry =>
            Forall (fun still_open =>
                      (item_level still_open < item_level (fst entry))%Z)
                   (snd entry)) log.

Definition widget_addr (item : WidgetItem) : nat := addr (item_widget item).

(** What holds of the executor's state all along a run. *)
Definition count_calls (p : Call -> bool) (cs : list Call) : nat :=
  length (List.filter p cs).

Definition executor_invariant (st : RenderState) : Prop :=
  deepest_on_top (rendering_stack st)
  /\ deepest_open_first (finalized st)
  /\ did_render_calls (calls st) = map widget_addr (did_render_order st)
  /\ count_calls is_save (calls st)
     = (2 * (length (finalized st) + length (rendering_stack st)))%nat
  /\ count_calls is_restore (calls st)
     = (2 * length (finalized st) + length (rendering_stack st))%nat.


(** ** Concrete trees *)

Definition accepts_nothing : Point -> bool := fun _ => false.
Definition accepts_everything : Point -> bool := fun _ => true.

(** A linear tree A -> B -> C, A being the root widget of a 100 x 100 view. *)
Definition widget_C : Widget :=
  MkWidget 3 false 5 5 20 20 1 accepts_nothing [].
Definition widget_B : Widget :=
  MkWidget 2 false 10 10 50 50 1 accepts_nothing [widget_C].
Definition widget_A : Widget :=
  MkWidget 1 false 0 0 100 100 1 accepts_nothing [widget_B].
Definition view_ABC : WidgetView := MkWidgetView 100 100 widget_A None.

(** The same view with B stored as the responder by an earlier hit test. *)
Definition view_ABC_responding : WidgetView :=
  MkWidgetView 100 100 widget_A (Some widget_B).

(** Siblings X, Y, Z added in this order under the root of an 800 x 600
    view, all three accepting every location. *)
Definition widget_X : Widget := MkWidget 11 false 0 0 100 100 1 accepts_everything [].
Definition widget_Y : Widget := MkWidget 12 false 0 0 100 100 1 accepts_everything [].
Definition widget_Z : Widget := MkWidget 13 false 0 0 100 100 1 accepts_everything [].
Definition root_XYZ : Widget :=
  MkWidget 10 false 0 0 800 600 1 accepts_nothing [widget_X; widget_Y; widget_Z].
Definition view_XYZ : WidgetView := MkWidgetView 800 600 root_XYZ None.

(** A hidden widget that accepts every location, alone under the root. *)
Definition hidden_widget : Widget :=
  MkWidget 21 true 0 0 100 100 1 accepts_everything [].
Definition root_with_hidden : Widget :=
  MkWidget 20 false 0 0 800 600 1 accepts_nothing [hidden_widget].
Definition view_with_hidden : WidgetView :=
  MkWidgetView 800 600 root_with_hidden None.

(** What one visit of the tree-wide passes does at a widget. *)
Definition did_render_visit (view : WidgetView) (widget : Widget) : list Call :=
  [nvgSave;
   if is_root view widget then ViewDidRender
   else Widget_WidgetViewDidRender (addr widget);
   nvgRestore].

Definition will_render_visit (view : WidgetView) (widget : Widget) : list Call :=
  [nvgSave;
   if is_root view widget then ViewWillRender
   else Widget_WidgetViewWillRender (addr widget);
   nvgRestore].

(** An 800 x 600 view whose root has one 100 x 100 child that starts 50
    points left of the root. *)
Definition widget_left : Widget :=
  MkWidget 31 false (-50) 0 100 100 1 accepts_nothing [].
Definition root_left : Widget :=
  MkWidget 30 false 0 0 800 600 1 accepts_nothing [widget_left].
Definition view_left : WidgetView := MkWidgetView 800 600 root_left None.

(** The scenario of the specification: an 800 x 600 root and a child at
    (50, 50) of size 400 x 300 and scale 1. *)
Definition widget_scenario : Widget :=
  MkWidget 41 false 50 50 400 300 1 accepts_nothing [].
Definition root_scenario : Widget :=
  MkWidget 40 false 0 0 800 600 1 accepts_nothing [widget_scenario].
Definition view_scenario : WidgetView := MkWidgetView 800 600 root_scenario None.

(** An 800 x 600 view with a hidden panel that has a shown child, and a shown
    panel with a child of width 0 and a shown child. *)
Definition label_in_hidden_panel : Widget :=
  MkWidget 52 false 5 5 50 20 1 accepts_everything [].
Definition hidden_panel : Widget :=
  MkWidget 51 true 0 0 200 200 1 accepts_nothing [label_in_hidden_panel].
Definition empty_label : Widget :=
  MkWidget 54 false 0 0 0 20 1 accepts_nothing [].
Definition shown_label : Widget :=
  MkWidget 55 false 10 40 100 20 1 accepts_nothing [].
Definition shown_panel : Widget :=
  MkWidget 53 false 300 100 200 200 1 accepts_nothing [empty_label; shown_label].
Definition root_mixed : Widget :=
  MkWidget 50 false 0 0 800 600 1 accepts_nothing [hidden_panel; shown_panel].
Definition view_mixed : WidgetView := MkWidgetView 800 600 root_mixed None.

(** ** Widget::AddChild (widget.cc) on a store of widget objects

    The tree models above read a widget with its children as one value.  The
    parent back-reference and the memoized measured scale are fields of the
    objects themselves, so AddChild is modelled on a store that maps the
    address of every live widget to its fields. *)
Module Store.

(** The fields of widget.h that the add operation is said to touch:
    [parent_] (nullptr is None), [measured_scale_] (None once it has been
    reset, otherwise the memoized value) and [children_]. *)
Record WidgetObject : Type := MkWidgetObject {
  parent_ : option nat;
  measured_scale_ : option float;
  children_ : list nat
}.

(** [this->AddChild(child)]: children_.push_back(child).  A call on an
    address that holds no widget is not a call of the program; the store is
    then left as it is. *)
Definition AddChild (this child : nat) (store : gmap nat WidgetObject)
    : gmap nat WidgetObject :=
  match store !! this with
  | Some w =>
      <[this := MkWidgetObject (parent_ w) (measured_scale_ w)
                               (children_ w ++ [child])]> store
  | None => store
  end.

(** A parent at address 1 and a widget at address 2 that was measured
    before, with scale 2, and has no parent. *)
Definition parent_object : WidgetObject := MkWidgetObject None None [].
Definition child_object : WidgetObject := MkWidgetObject None (Some 2) [].
Definition two_widgets : gmap nat WidgetObject :=
  <[1%nat := parent_object]> (<[2%nat := child_object]> ∅).

End Store.

(** ** BaseView::Redraw (base_view.cc)

    The two sections of Redraw that run under redraw_mutex are atomic, and
    RenderNativeView runs outside the lock.  The calls of Redraw that other
    threads make while a pass is in progress therefore run, one after the
    other, between the two locked sections of the call that renders;
    [arrivals] tells for every pass in turn how many such calls are made
    during it.  Calls that other threads make between the second section of
    a call and the call it re-triggers are not part of this model.  A call
    that keeps being re-triggered need not return, hence the fuel. *)
Module Redrawing.

Record BaseView : Type := MkBaseView {
  is_redrawing_ : bool;
  waiting_for_redraw_ : bool;
  render_passes : nat          (* ghost: calls of RenderNativeView so far *)
}.

(** Lines 87-94: true when the call goes on to render. *)
Definition Redraw_enter (view : BaseView) : bool * BaseView :=
  if is_redrawing_ view
  then (false, MkBaseView (is_redrawing_ view) true (render_passes view))
  else (true, MkBaseView true (waiting_for_redraw_ view) (render_passes view)).

(** Lines 99-103: kShouldRedraw and the flags reset. *)
Definition Redraw_leave (view : BaseView) : bool * BaseView :=
  (waiting_for_redraw_ view, MkBaseView false false (render_passes view)).

Definition count_pass (view : BaseView) : BaseView :=
  MkBaseView (is_redrawing_ view) (waiting_for_redraw_ view)
             (S (render_passes view)).

(** [n] calls one after the other, each from the state the one before left. *)
Fixpoint repeat_call (n : nat) (call : BaseView -> option BaseView)
    (view : BaseView) : option BaseView :=
  match n with
  | O => Some view
  | S n' =>
      match call view with
      | Some view' => repeat_call n' call view'
      | None => None
      end
  end.

Fixpoint Redraw (fuel : nat) (arrivals : list nat) (view : BaseView)
    : option BaseView :=
  match fuel with
  | O => None
  | S fuel' =>
      let (renders, view) := Redraw_enter view in
      if negb renders then Some view else
      (* RenderNativeView(), with the calls of Redraw made meanwhile *)
      match repeat_call (hd O arrivals) (Redraw fuel' []) (count_pass view) with
      | None => None
      | Some view =>
          let (kShouldRedraw, view) := Redraw_leave view in
          if kShouldRedraw then Redraw fuel' (tl arrivals) view
          else Some view
      end
  end.

Definition idle (passes : nat) : BaseView := MkBaseView false false passes.

End Redrawing.

(** * Part I, continued: further functions of the same files *)

(** ** More on the planner *)

(** [first] stands before [second] in [l]. *)
Definition stands_before {A : Type} (first second : A) (l : list A) : Prop :=
  exists l1 l2 l3, l = l1 ++ first :: l2 ++ second :: l3.

(** ** The planner with the rounding of float arithmetic

    A finite float is a rational, and float comparisons are the comparisons
    of these rationals; [+], [-] and [*] on floats give the exact result
    rounded to a float, one rounding per operation.  [PlanItem] and
    [PopulateWidgetList] above leave the rounding out.  Here they are once
    more with it: [round] is the rounding, every operation of lines 91-131
    goes through it, and the constants 0 and 1 are themselves floats.
    Overflow to an infinity and NaN stay out of the model. *)
Section RoundedPlanner.
Variable round : Q -> Q.
Variable view : WidgetView.

Definition fadd (a b : float) : float := round (a + b).
Definition fsub (a b : float) : float := round (a - b).
Definition fmul (a b : float) : float := round (a * b).

(** Lines 84-140 of PopulateWidgetList with rounding. *)
Definition PlanItem_rounded (level : Z) (scale : float) (widget : Widget)
    (parent_item : option WidgetItem) : option WidgetItem :=
  if IsHidden widget then None else
  let kWidgetWidth := GetWidth widget in
  if fle kWidgetWidth 0 then None else
  let kWidgetHeight := GetHeight widget in
  if fle kWidgetHeight 0 then None else
  let kWidgetX := GetX widget in
  let kWidgetY := GetY widget in
  let kScaledWidgetWidth := fmul (fmul kWidgetWidth scale) (scale_ widget) in
  let kScaledWidgetHeight := fmul (fmul kWidgetHeight scale) (scale_ widget) in
  match parent_item with
  | None =>
      Some (MkWidgetItem widget (MkPoint kWidgetX kWidgetY) kWidgetWidth
              kWidgetHeight level None (scale_ widget)
              (MkPoint 0 0) (MkPoint 0 0)
              kScaledWidgetWidth kScaledWidgetHeight)
  | Some parent =>
      let translated_x :=
        fadd (x (item_translated_origin parent)) (fmul kWidgetX scale) in
      let translated_y :=
        fadd (y (item_translated_origin parent)) (fmul kWidgetY scale) in
      let scissor_x := std_max (x (item_scissor_origin parent)) translated_x in
      if fle (view_width view) scissor_x then None else
      let scissor_y := std_max (y (item_scissor_origin parent)) translated_y in
      if fle (view_height view) scissor_y then None else
      if flt (fsub (fadd translated_x kScaledWidgetWidth) 1) scissor_x
         || flt (fsub (fadd translated_y kScaledWidgetHeight) 1) scissor_y
      then None else
      let kParentOriginX := x (item_scissor_origin parent) in
      let scissor_width :=
        std_min kScaledWidgetWidth
                (fsub (fadd kParentOriginX (item_scissor_width parent))
                      scissor_x) in
      let scissor_width :=
        std_min scissor_width
                (fsub (fadd scissor_x kScaledWidgetWidth) kParentOriginX) in
      if fle scissor_width 0 || flt (fsub (fadd scissor_x scissor_width) 1) 0
      then None else
      let kParentOriginY := y (item_scissor_origin parent) in
      let scissor_height :=
        std_min kScaledWidgetHeight
                (fsub (fadd kParentOriginY (item_scissor_height parent))
                      scissor_y) in
      let scissor_height :=
        std_min scissor_height
                (fsub (fadd scissor_y kScaledWidgetHeight) kParentOriginY) in
      if fle scissor_height 0 || flt (fsub (fadd scissor_y scissor_height) 1) 0
      then None else
      Some (MkWidgetItem widget (MkPoint kWidgetX kWidgetY) kWidgetWidth
              kWidgetHeight level parent_item (scale_ widget)
              (MkPoint translated_x translated_y)
              (MkPoint scissor_x scissor_y)
              scissor_width scissor_height)
  end.

(** PopulateWidgetList with rounding. *)
Fixpoint PopulateWidgetList_rounded (level : Z) (scale : float)
    (widget_list : WidgetList) (widget : Widget)
    (parent_item : option WidgetItem) {struct widget} : WidgetList :=
  match PlanItem_rounded level scale widget parent_item with
  | None => widget_list
  | Some item =>
      let kChildWidgetScale := fmul scale (scale_ widget) in
      (fix each_child (cs : list Widget) (widget_list : WidgetList) : WidgetList :=
         match cs with
         | [] => widget_list
         | child :: cs' =>
             each_child cs'
               (PopulateWidgetList_rounded (level + 1) kChildWidgetScale
                                           widget_list child (Some item))
         end) (children widget) (widget_list ++ [item])
  end.

(** The list planned for one widget, from an empty list, and the list
    Render plans. *)
Definition plan_rounded (level : Z) (scale : float)
    (parent_item : option WidgetItem) (widget : Widget) : WidgetList :=
  PopulateWidgetList_rounded level scale [] widget parent_item.


End RoundedPlanner.

Arguments PlanItem_rounded : simpl never.

(** *** The rounding of binary32

    The float nearest to a rational, a tie going to the even significand
    of 24 bits.  The exponent is not limited. *)

(** The integer nearest to [a / b] for [0 < b], a tie going to the even
    one. *)
Definition round_to_even (a b : Z) : Z :=
  let q := (a / b)%Z in
  let r := (a mod b)%Z in
  match (2 * r ?= b)%Z with
  | Lt => q
  | Gt => (q + 1)%Z
  | Eq => if Z.even q then q else (q + 1)%Z
  end.

(** The [e] with [2 ^ e <= n / d < 2 ^ (e + 1)], for [0 < n] and [0 < d]. *)
Definition binary_exponent (n d : Z) : Z :=
  let e0 := (Z.log2 n - Z.log2 d)%Z in
  if (if (0 <=? e0)%Z then (n <? d * 2 ^ e0)%Z else (n * 2 ^ (- e0) <? d)%Z)
  then (e0 - 1)%Z else e0.

Definition binary32_positive (n d : Z) : float :=
  let k := (23 - binary_exponent n d)%Z in
  if (0 <=? k)%Z
  then Qred (round_to_even (n * 2 ^ k) d # Z.to_pos (2 ^ k))
  else inject_Z (round_to_even n (d * 2 ^ (- k)) * 2 ^ (- k)).

Definition binary32 (q : Q) : float :=
  match Qnum q with
  | Z0 => 0
  | Zpos _ => binary32_positive (Qnum q) (Zpos (Qden q))
  | Zneg _ => - binary32_positive (- Qnum q) (Zpos (Qden q))
  end.

(** ** More on the render executor *)

(** What one round of the onscreen loop of Render asks for an item after
    the push, and what PopAndFinalizeWidgetItems asks for an item it pops. *)
Definition open_calls (item : WidgetItem) : list Call :=
  [nvgSave;
   nvgTranslate (x (item_origin item)) (y (item_origin item));
   nvgScale (item_scale item) (item_scale item);
   nvgIntersectScissor 0 0 (item_width item) (item_height item);
   Widget_WidgetWillRender (addr (item_widget item));
   nvgSave;
   Widget_RenderOnDemand (addr (item_widget item));
   nvgRestore].

Definition close_calls (item : WidgetItem) : list Call :=
  [Widget_WidgetDidRender (addr (item_widget item)); nvgRestore].

(** Rendering by recursion on the tree: a widget that gets an item is
    opened, its children are rendered in insertion order, and it is closed;
    a widget that gets no item is left out with all that is below it. *)
Fixpoint render_nested (view : WidgetView) (level : Z) (scale : float)
    (parent_item : option WidgetItem) (widget : Widget) {struct widget}
    : list Call :=
  match PlanItem view level scale widget parent_item with
  | None => []
  | Some item =>
      open_calls item
      ++ flat_map (render_nested view (level + 1) (scale * scale_ widget)
                                 (Some item))
                  (children widget)
      ++ close_calls item
  end.

(** The stack and the calls of a state. *)
Definition stack_and_calls (st : RenderState) : WidgetItemStack * list Call :=
  (rendering_stack st, calls st).

Definition close_calls_from (level : Z) (sc : WidgetItemStack * list Call)
    : WidgetItemStack * list Call :=
  (kept level (fst sc), snd sc ++ flat_map close_calls (popped level (fst sc))).

Definition open_with_calls (sc : WidgetItemStack * list Call)
    (item : WidgetItem) : WidgetItemStack * list Call :=
  let sc := close_calls_from (item_level item) sc in
  (item :: fst sc, snd sc ++ open_calls item).

(** The depth of the state stack of the drawing context after a list of
    calls, from a given depth; None when an nvgRestore finds nothing to
    restore. *)
Fixpoint save_depth (cs : list Call) (depth : nat) : option nat :=
  match cs with
  | [] => Some depth
  | nvgSave :: rest => save_depth rest (S depth)
  | nvgRestore :: rest =>
      match depth with
      | O => None
      | S depth' => save_depth rest depth'
      end
  | _ :: rest => save_depth rest depth
  end.

(** The widgets a call list asks to render, hook by hook. *)
Definition will_render_calls (cs : list Call) : list nat :=
  flat_map (fun c => match c with Widget_WidgetWillRender a => [a] | _ => [] end) cs.

Definition render_on_demand_calls (cs : list Call) : list nat :=
  flat_map (fun c => match c with Widget_RenderOnDemand a => [a] | _ => [] end) cs.

Definition default_framebuffer_calls (cs : list Call) : list nat :=
  flat_map (fun c => match c with
                     | Widget_RenderDefaultFramebuffer a => [a]
                     | _ => []
                     end) cs.

(** ** More on hit testing and events *)

(** [this->AddChild(child)] (widget.cc) on a widget read with its children:
    the child goes behind the children there are.  [child] is read as the
    tree below it before the call, which is the tree below it afterwards
    as long as [this] is not in it: the properties of Widget_AddChild below
    are stated for a child whose tree does not hold the address of [this].
    With [this] in the tree of [child] the push_back closes a cycle, which
    no value of [Widget] stands for. *)
Definition Widget_AddChild (this child : Widget) : Widget :=
  MkWidget (addr this) (IsHidden this) (GetX this) (GetY this)
           (GetWidth this) (GetHeight this) (scale_ this) (handles this)
           (children this ++ [child]).

(** WidgetView::AddWidget: root_widget_->AddChild(widget). *)
Definition AddWidget (view : WidgetView) (widget : Widget) : WidgetView :=
  MkWidgetView (view_width view) (view_height view)
               (Widget_AddChild (root_widget_ view) widget)
               (event_responder_ view).

Section EventDelivery.
(** [this] is the address of the view and [widget_view] what widget_view()
    returns for a widget: the address of the view it is attached to, None
    for nullptr. *)
Variable this : nat.
Variable widget_view : Widget -> option nat.

Definition attached_here (widget : Widget) : bool :=
  match widget_view widget with
  | Some v => Nat.eqb v this
  | None => false
  end.

(** WidgetView::HandleEvent: the view afterwards and the widget whose
    HandleEvent got the event, if any. *)
Definition HandleEvent (view : WidgetView) : WidgetView * option Widget :=
  match event_responder_ view with
  | None => (view, None)
  | Some responder =>
      if negb (attached_here responder)
      then (MkWidgetView (view_width view) (view_height view)
                         (root_widget_ view) None, None)
      else (view, Some responder)
  end.
End EventDelivery.

(** ** More on BaseView::Redraw and Widget::AddChild *)

(** The number of passes in a row during which calls of Redraw arrive. *)
Fixpoint busy_passes (arrivals : list nat) : nat :=
  match arrivals with
  | [] => O
  | n :: later => if Nat.eqb n 0 then O else S (busy_passes later)
  end.

(** AddChild for a list of children, one call after the other. *)
Definition AddChildren (this : nat) (new_children : list nat)
    (store : gmap nat Store.WidgetObject) : gmap nat Store.WidgetObject :=
  fold_left (fun store child => Store.AddChild this child store)
            new_children store.

(** ** The rest of widget.cc

    widget.cc keeps the bounds of a widget in x_, y_, width_ and height_,
    which SetBounds sets from ints, and renders the children of a widget
    with RenderChildren.  nvgScissor and nvgTranslate take floats, so the
    bounds reach them converted to float.  [Render(context)] of a child is
    virtual and is recorded as a call. *)

(** The conversion of an int to float, to the nearest float with a tie
    going to the even significand of 24 bits: the value of the float, which
    is an integer again. *)
Definition float_of_int (i : Z) : Z :=
  if (Z.log2 (Z.abs i) <? 24)%Z then i
  else let shift := (Z.log2 (Z.abs i) - 23)%Z in
       (Z.sgn i * (round_to_even (Z.abs i) (2 ^ shift) * 2 ^ shift))%Z.

Module WidgetCc.

(** The arguments of [Scissor] and [Translate] are the values of the floats
    passed. *)
Inductive DrawCall : Type :=
| Save
| Scissor (x y w h : Z)
| Translate (x y : Z)
| Render (widget : nat)
| Restore.

#[warnings="-register-all"]
Inductive Widget : Type := MkWidget {
  address : nat;
  height_ : Z;
  hidden_ : bool;
  width_ : Z;
  x_ : Z;
  y_ : Z;
  children_ : list Widget
}.

(** Widget::Widget() for the object at [address]. *)
Definition new_Widget (address : nat) : Widget :=
  MkWidget address 0 false 0 0 0 [].

Definition AddChild (this child : Widget) : Widget :=
  MkWidget (address this) (height_ this) (hidden_ this) (width_ this)
           (x_ this) (y_ this) (children_ this ++ [child]).

Definition SetBounds (this : Widget) (x y width height : Z) : Widget :=
  MkWidget (address this) height (hidden_ this) width x y (children_ this).

(** One round of the loop of RenderChildren. *)
Definition RenderChild (widget : Widget) : list DrawCall :=
  if hidden_ widget then []
  else [Save;
        Scissor (float_of_int (x_ widget)) (float_of_int (y_ widget))
                (float_of_int (width_ widget)) (float_of_int (height_ widget));
        Translate (float_of_int (x_ widget)) (float_of_int (y_ widget));
        Render (address widget);
        Restore].

Definition RenderChildren (this : Widget) : list DrawCall :=
  flat_map RenderChild (children_ this).

(** The widgets whose Render a call list holds, and the depth of the state
    stack after it (None when a Restore finds nothing to restore). *)
Definition rendered (cs : list DrawCall) : list nat :=
  flat_map (fun c => match c with Render a => [a] | _ => [] end) cs.

Fixpoint depth_after (cs : list DrawCall) (depth : nat) : option nat :=
  match cs with
  | [] => Some depth
  | Save :: rest => depth_after rest (S depth)
  | Restore :: rest =>
      match depth with
      | O => None
      | S depth' => depth_after rest depth'
      end
  | _ :: rest => depth_after rest depth
  end.

Definition shown (widget : Widget) : bool := negb (hidden_ widget).

End WidgetCc.

(** ** Adding a widget and planning *)

(** What an item says apart from the pointers it holds: the address of its
    widget, its level, and its geometry. *)
Record ItemGeometry : Type := MkItemGeometry {
  geometry_widget : nat;
  geometry_level : Z;
  geometry_origin : Point;
  geometry_width : float;
  geometry_height : float;
  geometry_scale : float;
  geometry_translated_origin : Point;
  geometry_scissor : Rect
}.

Definition item_geometry (item : WidgetItem) : ItemGeometry :=
  MkItemGeometry (addr (item_widget item)) (item_level item)
                 (item_origin item) (item_width item) (item_height item)
                 (item_scale item) (item_translated_origin item)
                 (scissor_rect item).

(** What PlanItem reads of a parent item. *)
Definition clip_of (parent_item : option WidgetItem) : option (Point * Rect) :=
  match parent_item with
  | None => None
  | Some parent => Some (item_translated_origin parent, scissor_rect parent)
  end.

(** Two widgets with the same fields, whatever their children. *)
Definition same_fields (w1 w2 : Widget) : Prop :=
  addr w1 = addr w2 /\ IsHidden w1 = IsHidden w2
  /\ GetX w1 = GetX w2 /\ GetY w1 = GetY w2
  /\ GetWidth w1 = GetWidth w2 /\ GetHeight w1 = GetHeight w2
  /\ scale_ w1 = scale_ w2.
(** ** More concrete inputs *)

(** The item of the root of [view_scenario], and a widget with a child that
    starts at the right edge of that view. *)
Definition root_item_scenario : WidgetItem :=
  MkWidgetItem root_scenario (MkPoint 0 0) 800 600 0 None 1
               (MkPoint 0 0) (MkPoint 0 0) 800 600.

Definition widget_beyond : Widget :=
  MkWidget 42 false 800 10 100 100 1 accepts_nothing
           [MkWidget 43 false 0 0 10 10 1 accepts_nothing []].

(** A widget of one point by one point at x = 0.3f, the float nearest to
    3/10, and one at x = 0.5 that is 1 - 2^-24 wide. *)
Definition widget_at_0_3 : Widget :=
  MkWidget 44 false (5033165 # 16777216) 0 1 1 1 accepts_nothing [].

Definition widget_below_one : Widget :=
  MkWidget 45 false (1 # 2) 0 (16777215 # 16777216) 1 1 accepts_nothing [].

(** The state of the onscreen loop after the three items of A -> B -> C. *)
Definition state_ABC : RenderState :=
  fold_left Render_item (Render_widget_list view_ABC) fresh_render_state.

(** * Part II: properties *)

(** ** Planner: the shape of the planned list *)

Section PlannerFacts.
Variable view : WidgetView.

(** PopulateWidgetList appends to the list it is given: the item of the
    widget, then what its children add, in insertion order. *)
Lemma PopulateWidgetList_eq :
  forall widget level scale widget_list parent_item,
    PopulateWidgetList view level scale widget_list widget parent_item
    = widget_list ++
      match PlanItem view level scale widget parent_item with
      | None => []
      | Some item =>
          item :: flat_map (plan view (level + 1) (scale * scale_ widget) (Some item))
                           (children widget)
      end.
Proof.
  induction widget as [w IH] using Widget_forall_ind.
  intros level scale widget_list parent_item.
  destruct w as [a h gx gy gw gh sc hd cs]; simpl in *.
  destruct (PlanItem view level scale _ parent_item) as [item|];
    [|now rewrite app_nil_r].
  replace (widget_list ++ item :: flat_map (plan view (level + 1) (scale * sc) (Some item)) cs)
    with ((widget_list ++ [item]) ++ flat_map (plan view (level + 1) (scale * sc) (Some item)) cs)
    by (now rewrite <- app_assoc).
  generalize (widget_list ++ [item]) as acc.
  induction IH as [|c cs' Hc _ IHcs]; intros acc; simpl.
  - now rewrite app_nil_r.
  - rewrite IHcs, Hc.
    unfold plan at 3. rewrite (Hc _ _ []). simpl.
    now rewrite app_assoc.
Qed.

Lemma plan_eq :
  forall level scale parent_item widget,
    plan view level scale parent_item widget
    = match PlanItem view level scale widget parent_item with
      | None => []
      | Some item =>
          item :: flat_map (plan view (level + 1) (scale * scale_ widget) (Some item))
                           (children widget)
      end.
Proof.
  intros. unfold plan at 1. now rewrite PopulateWidgetList_eq.
Qed.
End PlannerFacts.

(** ** Planner: what an item records *)

Lemma PlanItem_Some view level scale widget parent_item item :
  PlanItem view level scale widget parent_item = Some item ->
  item_widget item = widget /\ item_level item = level /\
  item_parent_item item = parent_item /\
  IsHidden widget = false /\ fle (GetWidth widget) 0 = false /\
  fle (GetHeight widget) 0 = false.
Proof.
  unfold PlanItem. cbv zeta.
  destruct (IsHidden widget); [discriminate|].
  destruct (fle (GetWidth widget) 0); [discriminate|].
  destruct (fle (GetHeight widget) 0); [discriminate|].
  destruct parent_item as [parent|].
  - repeat match goal with
           | |- context [if ?b then None else _] => destruct b; [discriminate|]
           end.
    intros [= <-]. simpl. repeat split; reflexivity.
  - intros [= <-]. simpl. repeat split; reflexivity.
Qed.

Lemma PlanItem_excluded view level scale widget parent_item :
  IsHidden widget = true \/ GetWidth widget <= 0 \/ GetHeight widget <= 0 ->
  PlanItem view level scale widget parent_item = None.
Proof.
  intros H. destruct (PlanItem _ _ _ _ _) as [item|] eqn:E; [|reflexivity].
  apply PlanItem_Some in E as (_ & _ & _ & Hh & Hw & Hg).
  unfold fle in *.
  destruct H as [H|[H|H]]; [congruence| |];
    apply Qle_bool_iff in H; congruence.
Qed.

(** ** Planner: pre-order and levels *)

Lemma plan_sublist_preorder view :
  forall widget level scale parent_item,
    sublist (map level_and_widget (plan view level scale parent_item widget))
            (preorder_depth level widget).
Proof.
  induction widget as [w IH] using Widget_forall_ind.
  intros level scale parent_item. rewrite plan_eq.
  destruct (PlanItem _ _ _ _ _) as [item|] eqn:E; [|apply sublist_nil_l].
  apply PlanItem_Some in E as (Hw & Hl & _).
  destruct w as [a h gx gy gw gh sc hd cs]; simpl in *.
  unfold level_and_widget at 1. rewrite Hw, Hl. clear Hw Hl.
  apply sublist_skip.
  induction IH as [|c cs' Hc _ IHcs]; simpl; [constructor|].
  rewrite map_app. apply sublist_app; [apply Hc | apply IHcs].
Qed.

Lemma preorder_depth_widgets d w :
  map snd (preorder_depth d w) = preorder w.
Proof.
  revert d. induction w as [w IH] using Widget_forall_ind. intros d.
  destruct w as [a h gx gy gw gh sc hd cs]; simpl in *. f_equal.
  induction IH as [|c cs' Hc _ IHcs]; simpl; [reflexivity|].
  now rewrite map_app, Hc, IHcs.
Qed.

Lemma preorder_self w : In w (preorder w).
Proof. destruct w; simpl; auto. Qed.

Lemma preorder_trans :
  forall w n d, In n (preorder w) -> In d (preorder n) -> In d (preorder w).
Proof.
  induction w as [w IH] using Widget_forall_ind. intros n d Hn Hd.
  destruct w as [a h gx gy gw gh sc hd cs]; simpl in *.
  destruct Hn as [<-|Hn]; [exact Hd|]. right.
  apply in_flat_map in Hn as (c & Hc & Hn). apply in_flat_map.
  exists c. split; [exact Hc|].
  rewrite List.Forall_forall in IH. eauto.
Qed.

(** A widget of the tree sits in the walk with its subtree right behind it. *)
Lemma preorder_split :
  forall w n, In n (preorder w) ->
    exists before after, preorder w = before ++ n :: descendants n ++ after.
Proof.
  induction w as [w IH] using Widget_forall_ind. intros n Hn.
  assert (forest : forall cs, Forall (fun c => forall n, In n (preorder c) ->
              exists before after,
                preorder c = before ++ n :: descendants n ++ after) cs ->
            In n (flat_map preorder cs) ->
            exists before after,
              flat_map preorder cs = before ++ n :: descendants n ++ after).
  { intros cs H. induction H as [|c cs' Hc _ IHcs]; simpl; [contradiction|].
    intros Hin. apply in_app_or in Hin as [Hin|Hin].
    - destruct (Hc _ Hin) as (b & f & E).
      exists b, (f ++ flat_map preorder cs'). rewrite E.
      rewrite <- !app_assoc. simpl. now rewrite <- app_assoc.
    - destruct (IHcs Hin) as (b & f & E).
      exists (preorder c ++ b), f. rewrite E. now rewrite <- app_assoc. }
  destruct w as [a h gx gy gw gh sc hd cs]. simpl in Hn, IH.
  destruct Hn as [<-|Hn].
  - exists [], []. simpl. unfold descendants. simpl. now rewrite app_nil_r.
  - destruct (forest cs IH Hn) as (b & f & E).
    exists (MkWidget a h gx gy gw gh sc hd cs :: b), f. simpl. now rewrite E.
Qed.

Lemma plan_widgets_in_tree view level scale parent_item widget item :
  In item (plan view level scale parent_item widget) ->
  In (item_level item, item_widget item) (preorder_depth level widget).
Proof.
  intros H. apply (in_map level_and_widget) in H.
  apply list_elem_of_In. apply list_elem_of_In in H.
  eapply elem_of_sublist; [exact H|].
  apply plan_sublist_preorder.
Qed.

(** Two elements in this order in a sublist of a duplicate-free list are in
    this order in the list. *)
Lemma sublist_pair_order {A} (a b : A) (before mid after : list A) :
  NoDup (before ++ b :: mid ++ after) ->
  In a mid ->
  ~ sublist [a; b] (before ++ b :: mid ++ after).
Proof.
  induction before as [|x before IH]; simpl; intros ND Ha Hs.
  - apply NoDup_cons in ND as [Hb _].
    inversion Hs as [| ? ? ? Hs' | ? ? ? Hs']; subst.
    + apply Hb. apply list_elem_of_In, in_or_app. now left.
    + apply Hb. eapply elem_of_sublist; [|exact Hs']. set_solver.
  - apply NoDup_cons in ND as [Hx ND].
    inversion Hs as [| ? ? ? Hs' | ? ? ? Hs']; subst.
    + apply Hx. apply list_elem_of_In, in_or_app. right. right.
      apply in_or_app. now left.
    + now apply IH.
Qed.

Lemma find_by_key {A} (key : A -> nat) (l : list A) (e : A) :
  NoDup (map key l) -> In e l ->
  find (fun e' => Nat.eqb (key e') (key e)) l = Some e.
Proof.
  induction l as [|e0 l IH]; simpl; [contradiction|].
  intros ND Hin. apply NoDup_cons in ND as [Hfresh ND].
  destruct Hin as [->|Hin]; [now rewrite Nat.eqb_refl|].
  destruct (Nat.eqb_spec (key e0) (key e)) as [E|_]; [|now apply IH].
  exfalso. apply Hfresh. rewrite E. apply list_elem_of_In. now apply in_map.
Qed.

Lemma sublist_map {A B} (f : A -> B) (l1 l2 : list A) :
  sublist l1 l2 -> sublist (map f l1) (map f l2).
Proof. induction 1; simpl; constructor; assumption. Qed.

(** C3.  For every widget tree (of distinct widgets) the list planned from
    the root with level 0 and scale 1 is in pre-order: it is a sub-sequence of
    the parent-first walk of the tree, so the item of a widget is never
    preceded by the item of one of its descendants; and the level of every
    item is the depth of its widget in the tree. *)
Theorem planner_preorder_and_levels (view : WidgetView) :
  distinct_widgets (root_widget_ view) ->
  let items := Render_widget_list view in
  sublist (map level_and_widget items) (preorder_depth 0 (root_widget_ view))
  /\ (forall l1 descendant_item l2 item l3,
        items = l1 ++ descendant_item :: l2 ++ item :: l3 ->
        ~ In (addr (item_widget descendant_item))
             (map addr (descendants (item_widget item))))
  /\ (forall item, In item items ->
        depth_of (root_widget_ view) (addr (item_widget item))
        = Some (item_level item)).
Proof.
  intros ND items.
  assert (Hsub : sublist (map level_and_widget items)
                         (preorder_depth 0 (root_widget_ view)))
    by apply plan_sublist_preorder.
  split; [exact Hsub|]. split.
  - intros l1 it1 l2 it2 l3 E Hdesc.
    assert (Hin : In (item_widget it2) (preorder (root_widget_ view))).
    { rewrite <- (preorder_depth_widgets 0).
      change (item_widget it2) with (snd (level_and_widget it2)).
      apply in_map. apply list_elem_of_In.
      eapply elem_of_sublist; [|exact Hsub].
      apply list_elem_of_In, in_map. rewrite E.
      apply in_or_app. right. right. apply in_or_app. right. now left. }
    destruct (preorder_split _ _ Hin) as (before & after & Esplit).
    unfold distinct_widgets in ND.
    apply (sublist_map (fun dw => addr (snd dw))) in Hsub.
    rewrite <- (preorder_depth_widgets 0) in ND, Esplit.
    rewrite !map_map in Hsub. rewrite map_map in ND.
    apply (f_equal (map addr)) in Esplit. rewrite map_map in Esplit.
    rewrite map_app in Esplit. simpl in Esplit. rewrite map_app in Esplit.
    rewrite Esplit in ND, Hsub.
    eapply sublist_pair_order; [exact ND | exact Hdesc |].
    etransitivity; [|exact Hsub].
    rewrite E, map_app. simpl. rewrite map_app. simpl.
    apply sublist_inserts_l, sublist_skip, sublist_inserts_l, sublist_skip,
      sublist_nil_l.
  - intros item Hin. unfold depth_of.
    rewrite (find_by_key (fun dw => addr (snd dw)) _
               (item_level item, item_widget item)); [reflexivity| |].
    + rewrite <- map_map, preorder_depth_widgets. exact ND.
    + apply (plan_widgets_in_tree view 0 1 None). exact Hin.
Qed.

Lemma descendants_in_preorder n w :
  In n (preorder w) -> incl (descendants n) (preorder w).
Proof.
  intros Hn d Hd. apply (preorder_trans w n d Hn).
  destruct n; simpl. right. exact Hd.
Qed.

Lemma shared_address_in_app (l1 l2 : list Widget) (n1 n2 : Widget) :
  NoDup (map addr (l1 ++ l2)) -> In n1 l1 -> In n2 l2 -> addr n1 <> addr n2.
Proof.
  rewrite map_app. intros ND H1 H2 E.
  apply NoDup_app in ND as (_ & Hdisj & _).
  apply (Hdisj (addr n1)).
  - apply list_elem_of_In. now apply in_map.
  - rewrite E. apply list_elem_of_In. now apply in_map.
Qed.

(** ** Planner: hidden and empty widgets *)

Lemma plan_widget_in_preorder view level scale parent_item widget item :
  In item (plan view level scale parent_item widget) ->
  In (item_widget item) (preorder widget).
Proof.
  intros H. apply plan_widgets_in_tree in H.
  rewrite <- (preorder_depth_widgets level).
  change (item_widget item) with (snd (item_level item, item_widget item)).
  now apply in_map.
Qed.

Lemma in_forest_preorder (cs : list Widget) (n d : Widget) :
  In n (flat_map preorder cs) -> In d (preorder n) ->
  In d (flat_map preorder cs).
Proof.
  intros Hn Hd. apply in_flat_map in Hn as (c & Hc & Hn).
  apply in_flat_map. exists c. split; [exact Hc|].
  now apply (preorder_trans c n d).
Qed.

Lemma plan_skips_excluded view :
  forall widget level scale parent_item,
    NoDup (map addr (preorder widget)) ->
    forall n, In n (preorder widget) ->
      IsHidden n = true \/ GetWidth n <= 0 \/ GetHeight n <= 0 ->
      forall d, In d (preorder n) ->
        forall item, In item (plan view level scale parent_item widget) ->
          widget_addr item <> addr d.
Proof.
  induction widget as [w IH] using Widget_forall_ind.
  intros level scale parent_item ND n Hn Hex d Hd item Hitem.
  assert (forest : forall cs,
    Forall (fun c => forall level scale parent_item,
      NoDup (map addr (preorder c)) ->
      forall n, In n (preorder c) ->
        IsHidden n = true \/ GetWidth n <= 0 \/ GetHeight n <= 0 ->
        forall d, In d (preorder n) ->
          forall item, In item (plan view level scale parent_item c) ->
            widget_addr item <> addr d) cs ->
    NoDup (map addr (flat_map preorder cs)) ->
    forall n, In n (flat_map preorder cs) ->
      IsHidden n = true \/ GetWidth n <= 0 \/ GetHeight n <= 0 ->
      forall d, In d (preorder n) ->
        forall lv s p item, In item (flat_map (plan view lv s p) cs) ->
          widget_addr item <> addr d).
  { clear. intros cs H. induction H as [|c cs' Hc _ IHcs]; simpl;
      intros ND n Hn Hex d Hd lv s p item Hitem; [contradiction|].
    assert (NDc : NoDup (map addr (preorder c)) /\
                  NoDup (map addr (flat_map preorder cs'))).
    { rewrite map_app in ND. apply NoDup_app in ND as (? & _ & ?). auto. }
    destruct NDc as [NDc NDcs].
    apply in_app_or in Hn as [Hn|Hn]; apply in_app_or in Hitem as [Hitem|Hitem].
    - now apply (Hc lv s p NDc n Hn Hex d Hd).
    - apply not_eq_sym.
      apply (shared_address_in_app _ _ d (item_widget item) ND).
      + now apply (preorder_trans c n d).
      + apply in_flat_map in Hitem as (c' & Hc' & Hitem).
        apply in_flat_map. exists c'. split; [exact Hc'|].
        now apply plan_widget_in_preorder in Hitem.
    - apply (shared_address_in_app _ _ (item_widget item) d ND).
      + now apply plan_widget_in_preorder in Hitem.
      + now apply (in_forest_preorder cs' n d).
    - now apply (IHcs NDcs n Hn Hex d Hd lv s p). }
  rewrite plan_eq in Hitem.
  destruct w as [a h gx gy gw gh sc hd cs].
  simpl in Hn. destruct Hn as [<-|Hn].
  - now rewrite PlanItem_excluded in Hitem.
  - destruct (PlanItem _ _ _ _ _) as [item0|] eqn:EP; [|contradiction].
    apply PlanItem_Some in EP as (Hw & _).
    simpl in ND, IH, Hitem. apply NoDup_cons in ND as [Hfresh ND].
    destruct Hitem as [<-|Hitem].
    + unfold widget_addr. rewrite Hw. simpl. intros ->.
      apply Hfresh, list_elem_of_In, in_map.
      now apply (in_forest_preorder cs n d).
    + now apply (forest cs IH ND n Hn Hex d Hd (level + 1)%Z (scale * sc)
                        (Some item0)).
Qed.

(** C4.  A widget of the tree that is hidden, or whose width or height is 0
    or less, has no item in the planned list, and neither has any widget
    below it. *)
Theorem excluded_widgets_have_no_items (view : WidgetView) (n : Widget) :
  distinct_widgets (root_widget_ view) ->
  In n (preorder (root_widget_ view)) ->
  IsHidden n = true \/ GetWidth n <= 0 \/ GetHeight n <= 0 ->
  forall d, In d (preorder n) ->
    forall item, In item (Render_widget_list view) ->
      widget_addr item <> addr d.
Proof.
  intros ND Hn Hex d Hd item Hitem.
  exact (plan_skips_excluded view _ 0%Z 1 None ND n Hn Hex d Hd item Hitem).
Qed.

(** *** What the scissor is in general *)

Lemma fle_true a b : fle a b = true <-> a <= b.
Proof. apply Qle_bool_iff. Qed.

Lemma fle_false a b : fle a b = false <-> b < a.
Proof.
  unfold fle. split; intros H.
  - apply Qnot_le_lt. intros Hle. apply Qle_bool_iff in Hle. congruence.
  - destruct (Qle_bool a b) eqn:E; [|reflexivity].
    apply Qle_bool_iff in E. exfalso. apply (Qlt_not_le _ _ H E).
Qed.

Lemma flt_true a b : flt a b = true <-> a < b.
Proof.
  unfold flt. rewrite negb_true_iff. apply (fle_false b a).
Qed.

Lemma flt_false a b : flt a b = false <-> b <= a.
Proof.
  unfold flt. rewrite negb_false_iff. apply (fle_true b a).
Qed.

Ltac float_tests :=
  repeat match goal with
         | H : fle _ _ = true |- _ => apply fle_true in H
         | H : fle _ _ = false |- _ => apply fle_false in H
         | H : flt _ _ = true |- _ => apply flt_true in H
         | H : flt _ _ = false |- _ => apply flt_false in H
         | H : _ || _ = false |- _ => apply orb_false_elim in H as [? ?]
         end.

(** The item planned under a parent item, field by field. *)
Lemma PlanItem_under_parent view level scale widget parent item :
  PlanItem view level scale widget (Some parent) = Some item ->
  let tx := x (item_translated_origin parent) + GetX widget * scale in
  let ty := y (item_translated_origin parent) + GetY widget * scale in
  let w := GetWidth widget * scale * scale_ widget in
  let h := GetHeight widget * scale * scale_ widget in
  let px := x (item_scissor_origin parent) in
  let py := y (item_scissor_origin parent) in
  let sx := std_max px tx in
  let sy := std_max py ty in
  item_translated_origin item = MkPoint tx ty
  /\ scaled_bounds scale item = MkRect tx ty w h
  /\ scissor_rect item
     = MkRect sx sy
         (std_min (std_min w (px + item_scissor_width parent - sx)) (sx + w - px))
         (std_min (std_min h (py + item_scissor_height parent - sy)) (sy + h - py))
  /\ sx < view_width view /\ sy < view_height view
  /\ sx <= tx + w - 1 /\ sy <= ty + h - 1
  /\ 0 < item_scissor_width item /\ 0 < item_scissor_height item.
Proof.
  unfold PlanItem. cbv zeta.
  destruct (IsHidden widget); [discriminate|].
  destruct (fle (GetWidth widget) 0); [discriminate|].
  destruct (fle (GetHeight widget) 0); [discriminate|].
  repeat match goal with
         | |- context [if ?b then None else _] =>
             destruct b eqn:?; [discriminate|]
         end.
  intros [= <-]. unfold scaled_bounds, scissor_rect. simpl.
  float_tests. repeat split; assumption.
Qed.

Lemma std_max_spec a b :
  (a < b /\ std_max a b = b) \/ (b <= a /\ std_max a b = a).
Proof.
  unfold std_max. destruct (flt a b) eqn:E; float_tests; auto.
Qed.

Lemma std_min_spec a b :
  (b < a /\ std_min a b = b) \/ (a <= b /\ std_min a b = a).
Proof.
  unfold std_min. destruct (flt b a) eqn:E; float_tests; auto.
Qed.

Ltac min_max_cases :=
  repeat match goal with
         | |- context [std_max ?a ?b] =>
             let E := fresh "E" in
             destruct (std_max_spec a b) as [[? E]|[? E]]; rewrite E in *; clear E
         | H : context [std_max ?a ?b] |- _ =>
             let E := fresh "E" in
             destruct (std_max_spec a b) as [[? E]|[? E]]; rewrite E in *; clear E
         | |- context [std_min ?a ?b] =>
             let E := fresh "E" in
             destruct (std_min_spec a b) as [[? E]|[? E]]; rewrite E in *; clear E
         | H : context [std_min ?a ?b] |- _ =>
             let E := fresh "E" in
             destruct (std_min_spec a b) as [[? E]|[? E]]; rewrite E in *; clear E
         end;
  repeat match goal with
         | |- context [Qmax ?a ?b] =>
             let m := fresh "m" in
             destruct (Q.max_spec a b) as [[? ?]|[? ?]];
             set (m := Qmax a b) in *; clearbody m
         | H : context [Qmax ?a ?b] |- _ =>
             let m := fresh "m" in
             destruct (Q.max_spec a b) as [[? ?]|[? ?]];
             set (m := Qmax a b) in *; clearbody m
         | |- context [Qmin ?a ?b] =>
             let m := fresh "m" in
             destruct (Q.min_spec a b) as [[? ?]|[? ?]];
             set (m := Qmin a b) in *; clearbody m
         | H : context [Qmin ?a ?b] |- _ =>
             let m := fresh "m" in
             destruct (Q.min_spec a b) as [[? ?]|[? ?]];
             set (m := Qmin a b) in *; clearbody m
         end.

(** Where a widget does not start left of or above the scissor of its
    parent item, the scissor of its item is the intersection of the two
    rectangles. *)
Lemma scissor_is_intersection_inside view level scale widget parent item :
  PlanItem view level scale widget (Some parent) = Some item ->
  x (item_scissor_origin parent) <= x (item_translated_origin item) ->
  y (item_scissor_origin parent) <= y (item_translated_origin item) ->
  rect_eq (scissor_rect item)
          (rect_intersection (scissor_rect parent) (scaled_bounds scale item)).
Proof.
  intros H. apply PlanItem_under_parent in H.
  cbv zeta in H. destruct H as (Ht & Hb & Hs & _). rewrite Ht, Hb, Hs.
  clear Ht Hb Hs.
  unfold rect_eq, rect_intersection, scissor_rect. simpl. intros Hx Hy.
  repeat split; min_max_cases; lra.
Qed.

(** An empty intersection gives no item. *)
Lemma empty_intersection_no_item view level scale widget parent :
  let bounds :=
    MkRect (x (item_translated_origin parent) + GetX widget * scale)
           (y (item_translated_origin parent) + GetY widget * scale)
           (GetWidth widget * scale * scale_ widget)
           (GetHeight widget * scale * scale_ widget) in
  rw (rect_intersection (scissor_rect parent) bounds) <= 0
  \/ rh (rect_intersection (scissor_rect parent) bounds) <= 0 ->
  PlanItem view level scale widget (Some parent) = None.
Proof.
  intros bounds Hempty.
  destruct (PlanItem _ _ _ _ _) as [item|] eqn:E; [exfalso|reflexivity].
  apply PlanItem_under_parent in E. cbv zeta in E.
  destruct E as (_ & _ & Hs & _ & _ & Hx & Hy & Hw & Hh).
  apply (f_equal rw) in Hs as Hsw. apply (f_equal rh) in Hs as Hsh.
  unfold scissor_rect in Hsw, Hsh. simpl in Hsw, Hsh. rewrite Hsw in Hw.
  rewrite Hsh in Hh. clear Hs Hsw Hsh.
  unfold bounds, rect_intersection, scissor_rect in Hempty. simpl in Hempty.
  min_max_cases; destruct Hempty; lra.
Qed.

(** ** Planner: the scissor rectangle *)

(** The scenario of the specification: the child at (50, 50) of size
    400 x 300 gets the translated origin (50, 50) and the scissor
    (50, 50, 400, 300), which is the intersection with the root's. *)
Example scissor_scenario :
  exists parent item,
    Render_widget_list view_scenario = [parent; item]
    /\ item_parent_item item = Some parent
    /\ item_translated_origin parent = MkPoint 0 0
    /\ scissor_rect parent = MkRect 0 0 800 600
    /\ item_translated_origin item = MkPoint 50 50
    /\ scissor_rect item = MkRect 50 50 400 300
    /\ rect_intersection (scissor_rect parent) (scaled_bounds 1 item)
       = MkRect 50 50 400 300.
Proof.
  do 2 eexists. split; [vm_compute; reflexivity|].
  repeat split; vm_compute; reflexivity.
Qed.

(** C1, at the failing input: a 100 x 100 child that starts 50 points left
    of its 800 x 600 parent.  The intersection of the parent's scissor with
    the child's bounds is (0, 0, 50, 100); the item's scissor is
    (0, 0, 100, 100). *)
Theorem scissor_not_clipped_on_the_left :
  exists parent item,
    Render_widget_list view_left = [parent; item]
    /\ item_parent_item item = Some parent
    /\ scissor_rect parent = MkRect 0 0 800 600
    /\ scaled_bounds 1 item = MkRect (-50) 0 100 100
    /\ rect_intersection (scissor_rect parent) (scaled_bounds 1 item)
       = MkRect 0 0 50 100
    /\ scissor_rect item = MkRect 0 0 100 100
    /\ ~ rect_eq (scissor_rect item)
         (rect_intersection (scissor_rect parent) (scaled_bounds 1 item)).
Proof.
  do 2 eexists. split; [vm_compute; reflexivity|].
  repeat split; try (vm_compute; reflexivity).
  intros (_ & _ & Hw & _). vm_compute in Hw. discriminate Hw.
Qed.

(** ** The render executor *)

Lemma popped_kept level stack : popped level stack ++ kept level stack = stack.
Proof.
  induction stack as [|t rest IH]; simpl; [reflexivity|].
  destruct (item_level t <? level)%Z; simpl; [reflexivity|now rewrite IH].
Qed.

Lemma popped_levels level stack :
  Forall (fun item => (level <= item_level item)%Z) (popped level stack).
Proof.
  induction stack as [|t rest IH]; simpl; [constructor|].
  destruct (Z.ltb_spec (item_level t) level); constructor; [lia|exact IH].
Qed.

Lemma kept_closed level stack : closed_at level (kept level stack).
Proof.
  induction stack as [|t rest IH]; simpl; [exact I|].
  destruct (Z.ltb_spec (item_level t) level); simpl; [assumption|exact IH].
Qed.

Lemma closed_at_kept level stack :
  closed_at level stack -> kept level stack = stack /\ popped level stack = [].
Proof.
  destruct stack as [|t rest]; simpl; [auto|].
  intros H. apply Z.ltb_lt in H. now rewrite H.
Qed.

Lemma PopAndFinalize_loop_eq level stack cs fin :
  PopAndFinalize_loop level stack cs fin
  = MkRenderState (kept level stack)
      (cs ++ did_render_hooks (popped level stack))
      (fin ++ finalize_log (popped level stack) (kept level stack)).
Proof.
  revert cs fin. induction stack as [|t rest IH]; intros cs fin; simpl.
  - now rewrite !app_nil_r.
  - destruct (item_level t <? level)%Z; simpl.
    + now rewrite !app_nil_r.
    + rewrite IH, <- !app_assoc. simpl. now rewrite popped_kept.
Qed.

Lemma finalize_log_items pop below : map fst (finalize_log pop below) = pop.
Proof. induction pop as [|t rest IH]; simpl; [|rewrite IH]; reflexivity. Qed.

Lemma stack_and_done_close level st :
  stack_and_done (PopAndFinalizeWidgetItems level st)
  = close_from level (stack_and_done st).
Proof.
  unfold PopAndFinalizeWidgetItems, stack_and_done, close_from, did_render_order.
  rewrite PopAndFinalize_loop_eq. simpl.
  now rewrite map_app, finalize_log_items.
Qed.

Lemma stack_and_done_item st item :
  stack_and_done (Render_item st item) = open_item (stack_and_done st) item.
Proof.
  unfold Render_item, open_item.
  rewrite <- stack_and_done_close. reflexivity.
Qed.

Lemma stack_and_done_run items st :
  stack_and_done (fold_left Render_item items st)
  = fold_left open_item items (stack_and_done st).
Proof.
  revert st. induction items as [|item items IH]; intros st; simpl;
    [reflexivity|].
  now rewrite IH, stack_and_done_item.
Qed.

(** Closing at a level and then at a shallower one is closing at the
    shallower one. *)
Lemma close_from_twice k level sd :
  (k <= level)%Z -> close_from k (close_from level sd) = close_from k sd.
Proof.
  destruct sd as [stack done]. unfold close_from. simpl. intros Hk.
  revert done. induction stack as [|t rest IH]; intros done; simpl.
  - now rewrite app_nil_r.
  - destruct (Z.ltb_spec (item_level t) level) as [Hlt|Hge]; simpl.
    + now rewrite app_nil_r.
    + destruct (Z.ltb_spec (item_level t) k) as [Hlt'|_]; [lia|].
      specialize (IH (done ++ [t])). rewrite <- !app_assoc in IH. simpl in IH.
      injection IH as E1 E2. rewrite E1. f_equal.
      rewrite <- !app_assoc. simpl. exact E2.
Qed.

(** A run that starts with an item of level [level] first closes at that
    level. *)
Lemma run_closes_first level items sd :
  match items with [] => True | item :: _ => item_level item = level end ->
  close_from level (fold_left open_item items sd)
  = close_from level (fold_left open_item items (close_from level sd)).
Proof.
  destruct items as [|item items]; simpl.
  - intros _. now rewrite close_from_twice by lia.
  - intros <-. unfold open_item at 2 4.
    now rewrite close_from_twice by lia.
Qed.

Lemma plan_head_level view level scale parent_item :
  forall cs,
    match flat_map (plan view level scale parent_item) cs with
    | [] => True
    | item :: _ => item_level item = level
    end.
Proof.
  induction cs as [|c cs IH]; simpl; [exact I|].
  rewrite plan_eq.
  destruct (PlanItem _ _ _ _ _) as [item|] eqn:E; simpl; [|exact IH].
  now apply PlanItem_Some in E as (_ & Hl & _).
Qed.

(** Running the plan of a subtree on a stack closed at its level and closing
    at that level again leaves the stack as it was and has finalized the
    subtree in post-order. *)
Lemma run_plan_postorder view :
  forall widget level scale parent_item stack done,
    closed_at level stack ->
    close_from level
      (fold_left open_item (plan view level scale parent_item widget)
                 (stack, done))
    = (stack, done ++ plan_postorder view level scale parent_item widget).
Proof.
  induction widget as [w IH] using Widget_forall_ind.
  intros level scale parent_item stack done Hclosed.
  rewrite plan_eq.
  destruct w as [a h gx gy gw gh sc hd cs]; simpl in *.
  destruct (PlanItem _ _ _ _ _) as [item|] eqn:E; simpl.
  2:{ unfold close_from. simpl.
      destruct (closed_at_kept _ _ Hclosed) as [-> ->]. reflexivity. }
  apply PlanItem_Some in E as (_ & Hl & _).
  unfold open_item at 2. unfold close_from at 2. simpl.
  destruct (closed_at_kept _ _ Hclosed) as [Hk Hp].
  rewrite Hl, Hk, Hp, app_nil_r.
  assert (forest : forall cs, Forall (fun c =>
             forall level scale parent_item stack done,
               closed_at level stack ->
               close_from level
                 (fold_left open_item (plan view level scale parent_item c)
                            (stack, done))
               = (stack, done ++ plan_postorder view level scale parent_item c)) cs ->
           forall lv s p stack done, closed_at lv stack ->
             close_from lv
               (fold_left open_item (flat_map (plan view lv s p) cs) (stack, done))
             = (stack, done ++ flat_map (plan_postorder view lv s p) cs)).
  { clear. intros cs H. induction H as [|c cs' Hc _ IHcs];
      intros lv s p stack done Hclosed; simpl.
    - unfold close_from. simpl.
      destruct (closed_at_kept _ _ Hclosed) as [-> ->]. reflexivity.
    - rewrite fold_left_app.
      rewrite run_closes_first by apply plan_head_level.
      rewrite Hc by assumption. rewrite IHcs by assumption.
      now rewrite <- app_assoc. }
  rewrite <- (close_from_twice level (level + 1)) by lia.
  rewrite (forest cs IH) by (simpl; lia).
  unfold close_from. simpl.
  destruct (Z.ltb_spec (item_level item) level) as [Hlt|_]; [lia|].
  rewrite Hk, Hp. simpl. now rewrite <- app_assoc.
Qed.

Lemma Render_onscreen_postorder view level scale parent_item widget :
  stack_and_done
    (PopAndFinalizeWidgetItems level
       (fold_left Render_item (plan view level scale parent_item widget)
                  fresh_render_state))
  = ([], plan_postorder view level scale parent_item widget).
Proof.
  rewrite stack_and_done_close, stack_and_done_run.
  apply (run_plan_postorder view widget level scale parent_item [] []).
  exact I.
Qed.

(** *** Every pushed item is finalized once *)

Lemma close_from_perm level sd :
  Permutation (snd (close_from level sd) ++ fst (close_from level sd))
              (snd sd ++ fst sd).
Proof.
  destruct sd as [stack done]. unfold close_from. simpl.
  rewrite <- app_assoc. now rewrite popped_kept.
Qed.

Lemma run_perm items :
  forall sd,
    Permutation (snd (fold_left open_item items sd)
                 ++ fst (fold_left open_item items sd))
                (snd sd ++ fst sd ++ items).
Proof.
  induction items as [|item items IH]; intros sd; simpl.
  - now rewrite app_nil_r.
  - rewrite IH. unfold open_item. simpl.
    set (c := close_from (item_level item) sd).
    transitivity ((snd c ++ fst c) ++ item :: items).
    + rewrite <- (app_assoc (snd c) (fst c)). apply Permutation_app_head.
      simpl. apply Permutation_middle.
    + unfold c. rewrite close_from_perm. now rewrite <- app_assoc.
Qed.

(** *** Deepest open item first *)

Lemma deepest_on_top_app pop below :
  deepest_on_top (pop ++ below) ->
  deepest_open_first (finalize_log pop below) /\ deepest_on_top below.
Proof.
  induction pop as [|t rest IH]; simpl.
  - intros H. split; [constructor|exact H].
  - intros [Ht Hrest]. destruct (IH Hrest) as [Hlog Hbelow].
    split; [|exact Hbelow]. constructor; [exact Ht|exact Hlog].
Qed.

Lemma closed_sorted_below level stack :
  closed_at level stack -> deepest_on_top stack ->
  Forall (fun lower => (item_level lower < level)%Z) stack.
Proof.
  destruct stack as [|t rest]; simpl; [constructor|].
  intros Ht [Hrest _]. constructor; [exact Ht|].
  eapply List.Forall_impl; [|exact Hrest]. simpl. intros; lia.
Qed.

Lemma did_render_calls_app c1 c2 :
  did_render_calls (c1 ++ c2) = did_render_calls c1 ++ did_render_calls c2.
Proof. unfold did_render_calls. apply flat_map_app. Qed.

Lemma did_render_calls_hooks items :
  did_render_calls (did_render_hooks items) = map widget_addr items.
Proof.
  induction items as [|t rest IH]; simpl; [reflexivity|].
  now rewrite <- IH.
Qed.

Lemma count_calls_app p c1 c2 :
  count_calls p (c1 ++ c2) = (count_calls p c1 + count_calls p c2)%nat.
Proof. unfold count_calls. now rewrite List.filter_app, length_app. Qed.

Lemma count_hooks items :
  count_calls is_save (did_render_hooks items) = 0%nat
  /\ count_calls is_restore (did_render_hooks items) = length items.
Proof.
  induction items as [|t rest [IH1 IH2]]; [split; reflexivity|].
  split; [exact IH1|]. unfold count_calls in *. simpl. now rewrite IH2.
Qed.

Lemma finalize_log_length pop below :
  length (finalize_log pop below) = length pop.
Proof. induction pop as [|t rest IH]; simpl; [|rewrite IH]; reflexivity. Qed.

Lemma PopAndFinalize_invariant level st :
  executor_invariant st ->
  executor_invariant (PopAndFinalizeWidgetItems level st).
Proof.
  intros (Hs & Hlog & Hcalls & Hsave & Hrestore).
  unfold PopAndFinalizeWidgetItems.
  rewrite PopAndFinalize_loop_eq. unfold executor_invariant, did_render_order.
  simpl.
  assert (Hlen : length (rendering_stack st)
                 = (length (popped level (rendering_stack st))
                    + length (kept level (rendering_stack st)))%nat)
    by (now rewrite <- length_app, popped_kept).
  rewrite <- (popped_kept level (rendering_stack st)) in Hs.
  apply deepest_on_top_app in Hs as [Hnew Hkept].
  destruct (count_hooks (popped level (rendering_stack st))) as [Cs Cr].
  split; [exact Hkept|]. split; [|split; [|split]].
  - apply Forall_app. split; assumption.
  - rewrite did_render_calls_app, did_render_calls_hooks, Hcalls.
    unfold did_render_order. now rewrite !map_app, finalize_log_items.
  - rewrite count_calls_app, Cs, Hsave, length_app, finalize_log_length. lia.
  - rewrite count_calls_app, Cr, Hrestore, length_app, finalize_log_length. lia.
Qed.

Lemma Render_item_invariant st item :
  executor_invariant st -> executor_invariant (Render_item st item).
Proof.
  intros H. apply (PopAndFinalize_invariant (item_level item)) in H.
  destruct H as (Hs & Hlog & Hcalls & Hsave & Hrestore).
  unfold Render_item, executor_invariant. simpl.
  split; [|split; [exact Hlog|split; [|split]]].
  - split; [|exact Hs].
    apply closed_sorted_below; [|exact Hs].
    unfold PopAndFinalizeWidgetItems. rewrite PopAndFinalize_loop_eq. simpl.
    apply kept_closed.
  - rewrite did_render_calls_app. simpl. rewrite app_nil_r. exact Hcalls.
  - rewrite count_calls_app, Hsave. unfold count_calls at 1. simpl. lia.
  - rewrite count_calls_app, Hrestore. unfold count_calls at 1. simpl. lia.
Qed.

Lemma run_invariant items :
  forall st, executor_invariant st ->
    executor_invariant (fold_left Render_item items st).
Proof.
  induction items as [|item items IH]; intros st H; simpl; [exact H|].
  apply IH, Render_item_invariant, H.
Qed.

Lemma fresh_invariant : executor_invariant fresh_render_state.
Proof. repeat split; constructor. Qed.

Lemma Render_onscreen_invariant items :
  executor_invariant (Render_onscreen items fresh_render_state).
Proof. apply PopAndFinalize_invariant, run_invariant, fresh_invariant. Qed.

Lemma Render_onscreen_left_open items :
  Forall (fun item => (item_level item < 0)%Z)
         (rendering_stack (Render_onscreen items fresh_render_state)).
Proof.
  apply closed_sorted_below.
  - unfold Render_onscreen, PopAndFinalizeWidgetItems.
    rewrite PopAndFinalize_loop_eq. simpl. apply kept_closed.
  - apply Render_onscreen_invariant.
Qed.

Lemma Render_onscreen_perm items :
  Permutation
    (did_render_order (Render_onscreen items fresh_render_state)
     ++ rendering_stack (Render_onscreen items fresh_render_state))
    items.
Proof.
  pose proof (stack_and_done_close 0 (fold_left Render_item items fresh_render_state)) as E.
  rewrite stack_and_done_run in E.
  change (PopAndFinalizeWidgetItems 0 (fold_left Render_item items fresh_render_state))
    with (Render_onscreen items fresh_render_state) in E.
  unfold stack_and_done in E at 1.
  pose proof (close_from_perm 0 (fold_left open_item items (stack_and_done fresh_render_state))) as P1.
  rewrite <- E in P1. simpl in P1. rewrite P1.
  rewrite run_perm. reflexivity.
Qed.

Lemma Render_onscreen_all_done items :
  Forall (fun item => (0 <= item_level item)%Z) items ->
  rendering_stack (Render_onscreen items fresh_render_state) = []
  /\ Permutation (did_render_order (Render_onscreen items fresh_render_state))
                 items.
Proof.
  intros Hlevels.
  pose proof (Render_onscreen_perm items) as P.
  pose proof (Render_onscreen_left_open items) as L.
  destruct (rendering_stack (Render_onscreen items fresh_render_state))
    as [|t rest] eqn:E.
  - split; [reflexivity|]. now rewrite app_nil_r in P.
  - exfalso. apply Forall_cons in L as [Ht _].
    assert (In t items) as Hin.
    { eapply Permutation_in; [exact P|]. apply in_or_app. right. now left. }
    rewrite List.Forall_forall in Hlevels. specialize (Hlevels _ Hin). lia.
Qed.

(** *** Descendants are finalized before their ancestors *)

Lemma plan_postorder_widgets view :
  forall widget level scale parent_item item,
    In item (plan_postorder view level scale parent_item widget) ->
    In (item_widget item) (preorder widget).
Proof.
  induction widget as [w IH] using Widget_forall_ind.
  intros level scale parent_item item.
  destruct w as [a h gx gy gw gh sc hd cs]; simpl in *.
  destruct (PlanItem _ _ _ _ _) as [item0|] eqn:E; [|contradiction].
  apply PlanItem_Some in E as (Hw & _).
  intros Hin. apply in_app_or in Hin as [Hin|[<-|[]]]; [|now left].
  right. apply in_flat_map in Hin as (c & Hc & Hin). apply in_flat_map.
  exists c. split; [exact Hc|].
  rewrite List.Forall_forall in IH. eauto.
Qed.

Lemma postorder_descendants_first view :
  forall widget level scale parent_item,
    NoDup (map addr (preorder widget)) ->
    forall l1 item l2,
      plan_postorder view level scale parent_item widget = l1 ++ item :: l2 ->
      forall later, In later l2 ->
        ~ In (widget_addr later) (map addr (descendants (item_widget item))).
Proof.
  induction widget as [w IH] using Widget_forall_ind.
  intros level scale parent_item ND l1 item l2 E later Hlater.
  assert (forest : forall cs,
    Forall (fun c => forall level scale parent_item,
      NoDup (map addr (preorder c)) ->
      forall l1 item l2,
        plan_postorder view level scale parent_item c = l1 ++ item :: l2 ->
        forall later, In later l2 ->
          ~ In (widget_addr later) (map addr (descendants (item_widget item)))) cs ->
    NoDup (map addr (flat_map preorder cs)) ->
    forall lv s p l1 item l2,
      flat_map (plan_postorder view lv s p) cs = l1 ++ item :: l2 ->
      forall later, In later l2 ->
        ~ In (widget_addr later) (map addr (descendants (item_widget item)))).
  { clear. intros cs H. induction H as [|c cs' Hc _ IHcs]; simpl;
      intros ND lv s p l1 item l2 E later Hlater.
    - now destruct l1.
    - assert (NDc : NoDup (map addr (preorder c)) /\
                    NoDup (map addr (flat_map preorder cs'))).
      { rewrite map_app in ND. apply NoDup_app in ND as (? & _ & ?). auto. }
      destruct NDc as [NDc NDcs].
      apply app_eq_app in E as (l & [[E1 E2]|[E1 E2]]).
      + destruct l as [|item' l]; simpl in E2.
        * apply (IHcs NDcs lv s p [] item l2); [now rewrite <- E2|exact Hlater].
        * injection E2 as <- ->.
          apply in_app_or in Hlater as [Hlater|Hlater].
          -- now apply (Hc lv s p NDc l1 item l E1 later).
          -- intros Hdesc. apply in_map_iff in Hdesc as (n & En & Hn).
             apply (shared_address_in_app _ _ n (item_widget later) ND);
               [| |exact En].
             ++ apply (descendants_in_preorder (item_widget item)); [|exact Hn].
                apply (plan_postorder_widgets view c lv s p).
                rewrite E1. apply in_or_app. right. now left.
             ++ apply in_flat_map in Hlater as (c' & Hc' & Hlater).
                apply in_flat_map. exists c'. split; [exact Hc'|].
                now apply (plan_postorder_widgets view c' lv s p).
      + now apply (IHcs NDcs lv s p l item l2 E2 later). }
  destruct w as [a h gx gy gw gh sc hd cs]; simpl in *.
  destruct (PlanItem _ _ _ _ _) as [item0|] eqn:EP; [|now destruct l1].
  apply PlanItem_Some in EP as (Hw & _).
  apply NoDup_cons in ND as [Hfresh ND].
  destruct l2 as [|z l2' _] using rev_ind; [contradiction|].
  change (l1 ++ item :: l2' ++ [z]) with (l1 ++ (item :: l2') ++ [z]) in E.
  rewrite app_assoc in E. apply app_inj_tail in E as [E <-].
  apply in_app_or in Hlater as [Hlater|[<-|[]]].
  - now apply (forest cs IH ND (level + 1)%Z (scale * sc) (Some item0) l1 item l2' E later).
  - intros Hdesc. apply Hfresh. unfold widget_addr in Hdesc. rewrite Hw in Hdesc. simpl in Hdesc.
    apply list_elem_of_In. apply in_map_iff in Hdesc as (n & <- & Hn).
    apply in_map.
    assert (Hitem : In (item_widget item) (flat_map preorder cs)).
    { assert (Hin : In item (flat_map (plan_postorder view (level + 1) (scale * sc) (Some item0)) cs))
        by (rewrite E; apply in_or_app; right; now left).
      apply in_flat_map in Hin as (c' & Hc' & Hin).
      apply in_flat_map. exists c'. split; [exact Hc'|].
      now apply (plan_postorder_widgets view c' _ _ _ _ Hin). }
    apply in_flat_map in Hitem as (c' & Hc' & Hitem).
    apply in_flat_map. exists c'. split; [exact Hc'|].
    now apply (descendants_in_preorder (item_widget item)).
Qed.

Lemma preorder_depth_levels :
  forall w d entry, In entry (preorder_depth d w) -> (d <= fst entry)%Z.
Proof.
  induction w as [w IH] using Widget_forall_ind. intros d entry.
  destruct w as [a h gx gy gw gh sc hd cs]; simpl in *.
  intros [<-|Hin]; [simpl; lia|].
  apply in_flat_map in Hin as (c & Hc & Hin).
  rewrite List.Forall_forall in IH. specialize (IH c Hc _ _ Hin). lia.
Qed.

Lemma Render_widget_list_levels view :
  Forall (fun item => (0 <= item_level item)%Z) (Render_widget_list view).
Proof.
  apply List.Forall_forall. intros item Hin.
  apply (plan_widgets_in_tree view 0 1 None) in Hin.
  now apply preorder_depth_levels in Hin.
Qed.

Example did_render_order_ABC : did_render_calls (Render view_ABC) = [3; 2; 1]%nat.
Proof. vm_compute. reflexivity. Qed.

(** C5.  Whatever list the onscreen loop of Render is run on: every item it
    pushed has been finalized exactly once when it ends (the finalized items
    are a permutation of the list and the stack is empty; levels are those
    the planner gives, 0 or more), the WidgetDidRender calls made are those
    of the finalized items in that order, the stack always has deeper items
    above shallower ones, and an item is only finalized when it is deeper
    than everything still open.  For the list planned from a tree, no
    widget's WidgetDidRender comes before that of a rendered descendant; for
    the linear tree A -> B -> C the order is C, B, A. *)
Theorem executor_finalizes_deepest_first :
  (forall widget_list : WidgetList,
     Forall (fun item => (0 <= item_level item)%Z) widget_list ->
     let st := Render_onscreen widget_list fresh_render_state in
     rendering_stack st = []
     /\ Permutation (did_render_order st) widget_list
     /\ did_render_calls (calls st) = map widget_addr (did_render_order st)
     /\ count_calls is_save (calls st) = (2 * length widget_list)%nat
     /\ count_calls is_restore (calls st) = (2 * length widget_list)%nat
     /\ deepest_open_first (finalized st)
     /\ (forall done_so_far rest, widget_list = done_so_far ++ rest ->
           deepest_on_top
             (rendering_stack (fold_left Render_item done_so_far
                                         fresh_render_state))))
  /\ (forall view : WidgetView,
        distinct_widgets (root_widget_ view) ->
        let st := Render_onscreen (Render_widget_list view) fresh_render_state in
        rendering_stack st = []
        /\ Permutation (did_render_order st) (Render_widget_list view)
        /\ (forall earlier item later,
              did_render_order st = earlier ++ item :: later ->
              forall descendant_item, In descendant_item later ->
                ~ In (widget_addr descendant_item)
                     (map addr (descendants (item_widget item)))))
  /\ did_render_calls (Render view_ABC) = [3; 2; 1]%nat.
Proof.
  split; [|split; [|exact did_render_order_ABC]].
  - intros widget_list Hlevels st.
    destruct (Render_onscreen_all_done widget_list Hlevels) as [Hs Hp].
    destruct (Render_onscreen_invariant widget_list)
      as (_ & Hlog & Hcalls & Hsave & Hrestore).
    fold st in Hs, Hp, Hlog, Hcalls, Hsave, Hrestore.
    assert (Hlen : length (finalized st) = length widget_list).
    { rewrite <- (length_map fst). apply Permutation_length. exact Hp. }
    rewrite Hs, Hlen in Hsave, Hrestore. simpl in Hsave, Hrestore.
    split; [exact Hs|]. split; [exact Hp|]. split; [exact Hcalls|].
    split; [lia|]. split; [lia|]. split; [exact Hlog|].
    intros done_so_far rest _. apply run_invariant, fresh_invariant.
  - intros view ND st.
    destruct (Render_onscreen_all_done _ (Render_widget_list_levels view))
      as [Hs Hp].
    split; [exact Hs|]. split; [exact Hp|].
    intros earlier item later E descendant_item Hin.
    pose proof (Render_onscreen_postorder view 0 1 None (root_widget_ view)) as Hpost.
    unfold stack_and_done in Hpost. injection Hpost as _ Hpost.
    change (did_render_order st = plan_postorder view 0 1 None (root_widget_ view))
      in Hpost.
    rewrite Hpost in E.
    exact (postorder_descendants_first view _ 0%Z 1 None ND earlier item later E
             descendant_item Hin).
Qed.

(** ** Hit testing *)

Lemma first_true_app {A S} (body : A -> S -> bool * S) (l1 l2 : list A) (s : S) :
  first_true body (l1 ++ l2) s
  = let (r, s') := first_true body l1 s in
    if r then (true, s') else first_true body l2 s'.
Proof.
  revert s. induction l1 as [|a l1 IH]; intros s; simpl; [reflexivity|].
  destruct (body a s) as [[|] s']; [reflexivity|apply IH].
Qed.

(** The loop of ShouldHandleEvent runs over the children from the last
    added to the first. *)
Lemma ShouldHandleEvent_eq location widget event_responder_ :
  ShouldHandleEvent location widget event_responder_
  = if IsHidden widget then (false, event_responder_)
    else first_true (ShouldHandleEvent_round location) (rev (children widget))
                    event_responder_.
Proof.
  destruct widget as [a h gx gy gw gh sc hd cs]; simpl.
  destruct h; [reflexivity|].
  revert event_responder_. induction cs as [|c later IH]; intros er; simpl;
    [reflexivity|].
  rewrite first_true_app, <- IH.
  match goal with |- (let (_, _) := ?t in _) = _ =>
    destruct t as [[|] er'] end;
    [reflexivity|].
  simpl. unfold ShouldHandleEvent_round.
  destruct (ShouldHandleEvent location c er') as [[|] er'']; [reflexivity|].
  destruct (handles c location); reflexivity.
Qed.

Lemma hit_order_eq widget :
  hit_order widget
  = flat_map (fun child => hit_order child ++ [child]) (rev (children widget)).
Proof.
  destruct widget as [a h gx gy gw gh sc hd cs]; simpl.
  induction cs as [|c later IH]; simpl; [reflexivity|].
  rewrite flat_map_app, <- IH. simpl. now rewrite app_nil_r.
Qed.

Lemma hit_order_shown_eq widget :
  hit_order_shown widget
  = if IsHidden widget then []
    else flat_map (fun child => hit_order_shown child ++ [child])
                  (rev (children widget)).
Proof.
  destruct widget as [a h gx gy gw gh sc hd cs]; simpl.
  destruct h; [reflexivity|].
  induction cs as [|c later IH]; simpl; [reflexivity|].
  rewrite flat_map_app, <- IH. simpl. now rewrite app_nil_r.
Qed.

Lemma first_hit_app location l1 l2 :
  first_hit location (l1 ++ l2)
  = match first_hit location l1 with
    | Some w => Some w
    | None => first_hit location l2
    end.
Proof.
  unfold first_hit. induction l1 as [|a l1 IH]; simpl; [reflexivity|].
  destruct (handles a location); [reflexivity|exact IH].
Qed.

(** What ShouldHandleEvent returns and stores: the first widget of its walk
    whose own test accepts the location. *)
Lemma ShouldHandleEvent_first_hit location :
  forall widget event_responder_,
    ShouldHandleEvent location widget event_responder_
    = match first_hit location (hit_order_shown widget) with
      | Some responder => (true, Some responder)
      | None => (false, event_responder_)
      end.
Proof.
  induction widget as [w IH] using Widget_forall_ind. intros er.
  destruct w as [a h gx gy gw gh sc hd cs]; simpl in *.
  destruct h; [reflexivity|].
  revert er. induction IH as [|c later Hc _ IHlater]; intros er; simpl;
    [reflexivity|].
  rewrite IHlater, first_hit_app.
  match goal with |- context [first_hit location (?f later)] =>
    destruct (first_hit location (f later)) as [found|] end; [reflexivity|].
  rewrite Hc, first_hit_app.
  destruct (first_hit location (hit_order_shown c)) as [found|]; [reflexivity|].
  unfold first_hit. simpl. destruct (handles c location); reflexivity.
Qed.

Lemma hit_order_shown_sublist :
  forall widget, sublist (hit_order_shown widget) (hit_order widget).
Proof.
  induction widget as [w IH] using Widget_forall_ind.
  destruct w as [a h gx gy gw gh sc hd cs]; simpl in *.
  destruct h; [apply sublist_nil_l|].
  induction IH as [|c later Hc _ IHlater]; simpl; [constructor|].
  apply sublist_app; [exact IHlater|].
  apply sublist_app; [exact Hc|reflexivity].
Qed.

Lemma hit_order_nothing_hidden :
  forall widget,
    (forall n, In n (preorder widget) -> IsHidden n = false) ->
    hit_order_shown widget = hit_order widget.
Proof.
  induction widget as [w IH] using Widget_forall_ind. intros Hshown.
  pose proof (Hshown w (preorder_self w)) as Hw.
  destruct w as [a h gx gy gw gh sc hd cs]; simpl in *. subst h.
  assert (Hcs : forall n, In n (flat_map preorder cs) -> IsHidden n = false)
    by (intros n Hn; apply Hshown; now right).
  clear Hshown.
  induction IH as [|c later Hc _ IHlater]; simpl; [reflexivity|].
  simpl in Hcs. rewrite IHlater, Hc; [reflexivity| |];
    intros n Hn; apply Hcs, in_or_app; [now left|now right].
Qed.

(** C8.  ShouldHandleEvent walks the children of a widget from the last added
    to the first, and what is below a child before the child itself
    ([hit_order_shown], which is [hit_order] as far as the walk goes: it does
    not go below a hidden widget, and is all of [hit_order] when nothing is
    hidden).  The first widget of the walk whose own test accepts the
    location is returned as the one responder, and with none the call
    returns false.  For siblings X, Y, Z that all accept, Z is the
    responder. *)
Theorem hit_test_front_most_first :
  (forall location widget event_responder_,
     ShouldHandleEvent location widget event_responder_
     = match first_hit location (hit_order_shown widget) with
       | Some responder => (true, Some responder)
       | None => (false, event_responder_)
       end
     /\ hit_order_shown widget
        = (if IsHidden widget then []
           else flat_map (fun child => hit_order_shown child ++ [child])
                         (rev (children widget)))
     /\ hit_order widget
        = flat_map (fun child => hit_order child ++ [child])
                   (rev (children widget))
     /\ sublist (hit_order_shown widget) (hit_order widget)
     /\ ((forall n, In n (preorder widget) -> IsHidden n = false) ->
         hit_order_shown widget = hit_order widget))
  /\ (forall location,
        WidgetView_ShouldHandleEvent view_XYZ location
        = (true, MkWidgetView 800 600 root_XYZ (Some widget_Z))).
Proof.
  split.
  - intros location widget er.
    split; [apply ShouldHandleEvent_first_hit|].
    split; [apply hit_order_shown_eq|].
    split; [apply hit_order_eq|].
    split; [apply hit_order_shown_sublist|apply hit_order_nothing_hidden].
  - intros location. reflexivity.
Qed.

Lemma ShouldHandleEvent_miss location widget event_responder_ :
  fst (ShouldHandleEvent location widget event_responder_) = false ->
  snd (ShouldHandleEvent location widget event_responder_) = event_responder_.
Proof.
  rewrite ShouldHandleEvent_first_hit.
  destruct (first_hit location (hit_order_shown widget)); simpl;
    [discriminate|reflexivity].
Qed.

(** C10.  When ShouldHandleEvent returns false, the view is as it was before
    the call; in particular event_responder_ is neither cleared nor
    replaced. *)
Theorem miss_keeps_responder (view : WidgetView) (location : Point) :
  fst (WidgetView_ShouldHandleEvent view location) = false ->
  snd (WidgetView_ShouldHandleEvent view location) = view
  /\ event_responder_ (snd (WidgetView_ShouldHandleEvent view location))
     = event_responder_ view.
Proof.
  unfold WidgetView_ShouldHandleEvent.
  pose proof (ShouldHandleEvent_miss location (root_widget_ view)
                                     (event_responder_ view)) as H.
  destruct (ShouldHandleEvent location (root_widget_ view) (event_responder_ view))
    as [r responder]. simpl in *.
  intros Hr. rewrite (H Hr). destruct view; simpl. split; reflexivity.
Qed.

(** C2, at the failing input: a hidden child of the root whose own test
    accepts the location is tested and stored as the responder. *)
Theorem hidden_child_becomes_responder :
  IsHidden hidden_widget = true
  /\ forall location,
       WidgetView_ShouldHandleEvent view_with_hidden location
       = (true, MkWidgetView 800 600 root_with_hidden (Some hidden_widget)).
Proof. split; [reflexivity|]. intros location. reflexivity. Qed.

(** What the walk never reaches: the widgets below a hidden widget. *)
Lemma below_hidden_not_walked widget :
  IsHidden widget = true -> hit_order_shown widget = [].
Proof. destruct widget; simpl. now intros ->. Qed.

(** ** The tree-wide passes *)

Lemma WidgetViewDidRender_eq view :
  forall widget,
    WidgetViewDidRender view widget
    = flat_map (did_render_visit view) (preorder widget).
Proof.
  induction widget as [w IH] using Widget_forall_ind.
  destruct w as [a h gx gy gw gh sc hd cs]; simpl in *.
  do 3 f_equal.
  induction IH as [|c cs' Hc _ IHcs]; simpl; [reflexivity|].
  now rewrite flat_map_app, Hc, IHcs.
Qed.

Lemma WidgetViewWillRender_eq view :
  forall widget,
    WidgetViewWillRender view widget
    = flat_map (will_render_visit view) (preorder widget).
Proof.
  induction widget as [w IH] using Widget_forall_ind.
  destruct w as [a h gx gy gw gh sc hd cs]; simpl in *.
  do 3 f_equal.
  induction IH as [|c cs' Hc _ IHcs]; simpl; [reflexivity|].
  now rewrite flat_map_app, Hc, IHcs.
Qed.

(** C9 as stated fails: the hidden widget of this tree has its hook called
    by both passes. *)
Lemma hidden_widget_hooks_invoked :
  In hidden_widget (preorder (root_widget_ view_with_hidden))
  /\ IsHidden hidden_widget = true
  /\ In (Widget_WidgetViewDidRender (addr hidden_widget))
        (WidgetViewDidRender view_with_hidden (root_widget_ view_with_hidden))
  /\ In (Widget_WidgetViewWillRender (addr hidden_widget))
        (WidgetViewWillRender view_with_hidden (root_widget_ view_with_hidden)).
Proof.
  split; [simpl; auto|]. split; [reflexivity|].
  split; simpl; auto 10.
Qed.

(** C9, amended.  Both passes go through the tree parent first, the children
    in insertion order, and every hook call stands between an nvgSave and an
    nvgRestore of its own.  The view-did-render pass calls the hook of every
    widget of the tree, hidden or not (ViewDidRender of the view at the root
    widget); the view-will-render pass calls the hook of every widget that is
    not hidden.  Render runs the first before and the second after
    everything else. *)
Theorem view_passes_visit_the_tree (view : WidgetView) :
  WidgetViewDidRender view (root_widget_ view)
  = flat_map (did_render_visit view) (preorder (root_widget_ view))
  /\ (exists visited,
        WidgetViewWillRender view (root_widget_ view)
        = flat_map (will_render_visit view) visited
        /\ sublist visited (preorder (root_widget_ view))
        /\ forall n, In n (preorder (root_widget_ view)) ->
             IsHidden n = false -> In n visited)
  /\ (exists between,
        Render view
        = WidgetViewWillRender view (root_widget_ view) ++ between
          ++ WidgetViewDidRender view (root_widget_ view)).
Proof.
  split; [apply WidgetViewDidRender_eq|]. split.
  - exists (preorder (root_widget_ view)).
    split; [apply WidgetViewWillRender_eq|]. split; [reflexivity|auto].
  - unfold Render. eexists. f_equal. rewrite !app_assoc. reflexivity.
Qed.

(** ** Widget::AddChild *)

Module StoreFacts.
Import Store.

(** AddChild changes nothing but the child list of the parent. *)
Lemma AddChild_other_objects (this child other : nat)
    (store : gmap nat WidgetObject) :
  other <> this -> AddChild this child store !! other = store !! other.
Proof.
  intros Hne. unfold AddChild.
  destruct (store !! this); [|reflexivity].
  now rewrite lookup_insert_ne.
Qed.

Lemma AddChild_children (this child : nat) (store : gmap nat WidgetObject)
    (w : WidgetObject) :
  store !! this = Some w ->
  AddChild this child store !! this
  = Some (MkWidgetObject (parent_ w) (measured_scale_ w)
                         (children_ w ++ [child])).
Proof.
  intros H. unfold AddChild. rewrite H. apply lookup_insert_eq.
Qed.

(** C6, at the failing input: after AddChild(1, 2) the child is in the
    child list of the parent, but its parent_ is still nullptr and its
    memoized measured scale is still there. *)
Theorem AddChild_leaves_the_child_as_it_was :
  (AddChild 1 2 two_widgets !! 1%nat
   = Some (MkWidgetObject None None [2%nat]))
  /\ AddChild 1 2 two_widgets !! 2%nat = Some child_object
  /\ parent_ child_object <> Some 1%nat
  /\ measured_scale_ child_object <> None.
Proof.
  split; [|split; [|split; discriminate]].
  - apply (AddChild_children 1 2 two_widgets parent_object).
    apply lookup_insert_eq.
  - rewrite AddChild_other_objects by discriminate.
    unfold two_widgets. rewrite lookup_insert_ne by discriminate.
    apply lookup_insert_eq.
Qed.

End StoreFacts.

(** ** BaseView::Redraw *)

Module RedrawFacts.
Import Redrawing.

Lemma Redraw_while_redrawing fuel arrivals view :
  is_redrawing_ view = true ->
  Redraw (S fuel) arrivals view
  = Some (MkBaseView true true (render_passes view)).
Proof. intros H. simpl. unfold Redraw_enter. now rewrite H. Qed.

Lemma arrivals_set_the_flag n fuel passes waiting :
  (1 <= n)%nat ->
  repeat_call n (Redraw (S fuel) []) (MkBaseView true waiting passes)
  = Some (MkBaseView true true passes).
Proof.
  intros Hn. destruct n as [|n]; [lia|clear Hn].
  revert waiting. induction n as [|n IH]; intros waiting.
  - reflexivity.
  - change (repeat_call (S (S n)) ?c ?v)
      with (match c v with
            | Some v' => repeat_call (S n) c v'
            | None => None
            end).
    rewrite Redraw_while_redrawing by reflexivity. apply IH.
Qed.

Lemma Redraw_alone fuel passes :
  Redraw (S fuel) [] (idle passes) = Some (idle (S passes)).
Proof. reflexivity. Qed.

(** C7.  A call of Redraw made while a redraw is in progress only sets
    waiting_for_redraw_ and returns, without a render pass.  A call that
    renders and finds the flag set when its pass is over clears both flags
    and calls Redraw once more, which is then a call like any other.  So
    whatever the number n >= 1 of calls made during one pass, and with no
    further call during the pass they trigger, there are two passes in
    all (so for a call and one more call made during its pass); with no
    call during the pass there is one. *)
Theorem redraw_requests_coalesce (n fuel passes : nat) :
  (1 <= n)%nat ->
  (forall arrivals view, is_redrawing_ view = true ->
     Redraw (S fuel) arrivals view
     = Some (MkBaseView true true (render_passes view)))
  /\ (forall later,
        Redraw (S (S fuel)) (n :: later) (idle passes)
        = Redraw (S fuel) later (idle (S passes)))
  /\ Redraw (S (S fuel)) [n] (idle passes) = Some (idle (S (S passes)))
  /\ Redraw (S (S fuel)) [1%nat] (idle 0) = Some (idle 2)
  /\ Redraw (S fuel) [0%nat] (idle passes) = Some (idle (S passes)).
Proof.
  intros Hn.
  assert (step : forall later,
             Redraw (S (S fuel)) (n :: later) (idle passes)
             = Redraw (S fuel) later (idle (S passes))).
  { intros later.
    change (Redraw (S (S fuel)) (n :: later) (idle passes))
      with (match repeat_call n (Redraw (S fuel) [])
                              (MkBaseView true false (S passes)) with
            | None => None
            | Some view =>
                let (kShouldRedraw, view) := Redraw_leave view in
                if kShouldRedraw then Redraw (S fuel) later view
                else Some view
            end).
    now rewrite arrivals_set_the_flag. }
  split; [intros arrivals view H; now apply Redraw_while_redrawing|].
  split; [exact step|]. split; [|split].
  - rewrite step. apply Redraw_alone.
  - reflexivity.
  - reflexivity.
Qed.

End RedrawFacts.

(** ** The theorems at concrete trees *)

Ltac distinct_addresses :=
  unfold distinct_widgets; simpl; apply NoDup_ListNoDup;
  repeat (apply List.NoDup_cons; [simpl; lia|]);
  apply List.NoDup_nil.

Lemma planner_preorder_and_levels_mixed :
  distinct_widgets (root_widget_ view_mixed)
  /\ sublist (map level_and_widget (Render_widget_list view_mixed))
             (preorder_depth 0 (root_widget_ view_mixed))
  /\ (forall l1 descendant_item l2 item l3,
        Render_widget_list view_mixed
        = l1 ++ descendant_item :: l2 ++ item :: l3 ->
        ~ In (addr (item_widget descendant_item))
             (map addr (descendants (item_widget item))))
  /\ (forall item, In item (Render_widget_list view_mixed) ->
        depth_of (root_widget_ view_mixed) (addr (item_widget item))
        = Some (item_level item)).
Proof.
  split; [distinct_addresses|].
  apply (planner_preorder_and_levels view_mixed). distinct_addresses.
Defined.

Lemma excluded_widgets_have_no_items_mixed :
  distinct_widgets (root_widget_ view_mixed)
  /\ In hidden_panel (preorder (root_widget_ view_mixed))
  /\ IsHidden hidden_panel = true
  /\ (forall d, In d (preorder hidden_panel) ->
        forall item, In item (Render_widget_list view_mixed) ->
          widget_addr item <> addr d).
Proof.
  split; [distinct_addresses|].
  split; [simpl; auto|]. split; [reflexivity|].
  apply (excluded_widgets_have_no_items view_mixed hidden_panel).
  - distinct_addresses.
  - simpl. auto.
  - left. reflexivity.
Defined.

Lemma executor_finalizes_deepest_first_mixed :
  Forall (fun item => (0 <= item_level item)%Z) (Render_widget_list view_mixed)
  /\ distinct_widgets (root_widget_ view_mixed)
  /\ rendering_stack
       (Render_onscreen (Render_widget_list view_mixed) fresh_render_state) = []
  /\ Permutation
       (did_render_order
          (Render_onscreen (Render_widget_list view_mixed) fresh_render_state))
       (Render_widget_list view_mixed)
  /\ did_render_calls
       (calls (Render_onscreen (Render_widget_list view_mixed) fresh_render_state))
     = [55; 53; 50]%nat.
Proof.
  assert (Hlevels : Forall (fun item => (0 <= item_level item)%Z)
                           (Render_widget_list view_mixed)).
  { vm_compute. repeat constructor; discriminate. }
  split; [exact Hlevels|]. split; [distinct_addresses|].
  destruct executor_finalizes_deepest_first as [Hlist _].
  destruct (Hlist (Render_widget_list view_mixed) Hlevels) as (Hs & Hp & _).
  split; [exact Hs|]. split; [exact Hp|]. vm_compute. reflexivity.
Defined.

Lemma miss_keeps_responder_stored :
  event_responder_ view_ABC_responding = Some widget_B
  /\ fst (WidgetView_ShouldHandleEvent view_ABC_responding (MkPoint 0 0)) = false
  /\ snd (WidgetView_ShouldHandleEvent view_ABC_responding (MkPoint 0 0))
     = view_ABC_responding
  /\ event_responder_
       (snd (WidgetView_ShouldHandleEvent view_ABC_responding (MkPoint 0 0)))
     = Some widget_B.
Proof.
  split; [reflexivity|]. split; [reflexivity|].
  destruct (miss_keeps_responder view_ABC_responding (MkPoint 0 0) eq_refl)
    as [Hview Hresponder].
  split; [exact Hview|]. rewrite Hresponder. reflexivity.
Defined.

Lemma redraw_requests_coalesce_three :
  (1 <= 3)%nat
  /\ Redrawing.Redraw 2 [3%nat] (Redrawing.idle 0) = Some (Redrawing.idle 2).
Proof.
  split; [lia|].
  destruct (RedrawFacts.redraw_requests_coalesce 3 0 0) as (_ & _ & H & _);
    [lia|exact H].
Defined.

(** * Part III: further properties of the code *)

(** ** More on the planner *)

(** *** The planner with rounding: the shape of the list *)

Section RoundedPlannerFacts.
Variable round : Q -> Q.
Variable view : WidgetView.

Lemma PopulateWidgetList_rounded_eq :
  forall widget level scale widget_list parent_item,
    PopulateWidgetList_rounded round view level scale widget_list widget
                               parent_item
    = widget_list ++
      match PlanItem_rounded round view level scale widget parent_item with
      | None => []
      | Some item =>
          item :: flat_map (plan_rounded round view (level + 1)
                                         (fmul round scale (scale_ widget))
                                         (Some item))
                           (children widget)
      end.
Proof.
  induction widget as [w IH] using Widget_forall_ind.
  intros level scale widget_list parent_item.
  destruct w as [a h gx gy gw gh sc hd cs]; simpl in *.
  destruct (PlanItem_rounded round view level scale _ parent_item) as [item|];
    [|now rewrite app_nil_r].
  set (F := plan_rounded round view (level + 1) (fmul round scale sc) (Some item)).
  replace (widget_list ++ item :: flat_map F cs)
    with ((widget_list ++ [item]) ++ flat_map F cs)
    by (now rewrite <- app_assoc).
  generalize (widget_list ++ [item]) as acc.
  induction IH as [|c cs' Hc _ IHcs]; intros acc; simpl.
  - now rewrite app_nil_r.
  - rewrite IHcs, Hc.
    unfold F at 2, plan_rounded. rewrite (Hc _ _ []). simpl.
    now rewrite app_assoc.
Qed.




(** The item planned under a parent item, field by field, and the tests it
    has passed. *)
Lemma PlanItem_rounded_under_parent level scale widget parent item :
  PlanItem_rounded round view level scale widget (Some parent) = Some item ->
  let tx := fadd round (x (item_translated_origin parent))
                 (fmul round (GetX widget) scale) in
  let ty := fadd round (y (item_translated_origin parent))
                 (fmul round (GetY widget) scale) in
  let w := fmul round (fmul round (GetWidth widget) scale) (scale_ widget) in
  let h := fmul round (fmul round (GetHeight widget) scale) (scale_ widget) in
  let px := x (item_scissor_origin parent) in
  let py := y (item_scissor_origin parent) in
  let sx := std_max px tx in
  let sy := std_max py ty in
  item_translated_origin item = MkPoint tx ty
  /\ item_scissor_origin item = MkPoint sx sy
  /\ item_scissor_width item
     = std_min (std_min w (fsub round (fadd round px (item_scissor_width parent)) sx))
               (fsub round (fadd round sx w) px)
  /\ item_scissor_height item
     = std_min (std_min h (fsub round (fadd round py (item_scissor_height parent)) sy))
               (fsub round (fadd round sy h) py)
  /\ sx < view_width view /\ sy < view_height view
  /\ 0 < item_scissor_width item /\ 0 < item_scissor_height item.
Proof.
  unfold PlanItem_rounded. cbv zeta.
  destruct (IsHidden widget); [discriminate|].
  destruct (fle (GetWidth widget) 0); [discriminate|].
  destruct (fle (GetHeight widget) 0); [discriminate|].
  repeat match goal with
         | |- context [if ?b then None else _] =>
             destruct b eqn:?; [discriminate|]
         end.
  intros [= <-]. simpl.
  float_tests. repeat split; assumption.
Qed.


End RoundedPlannerFacts.

(** Without rounding the rounded planner is the planner of Part I. *)
Lemma PlanItem_without_rounding view level scale widget parent_item :
  PlanItem_rounded (fun q => q) view level scale widget parent_item
  = PlanItem view level scale widget parent_item.
Proof. reflexivity. Qed.

Lemma plan_without_rounding view level scale parent_item widget :
  plan_rounded (fun q => q) view level scale parent_item widget
  = plan view level scale parent_item widget.
Proof. reflexivity. Qed.



Lemma planned_parent_relation view :
  forall widget level scale parent_item item,
    In item (plan view level scale parent_item widget) ->
    (item_parent_item item = parent_item /\ item_widget item = widget
     /\ item_level item = level
     /\ exists rest, plan view level scale parent_item widget = item :: rest)
    \/ (exists parent,
          item_parent_item item = Some parent
          /\ stands_before parent item
                           (plan view level scale parent_item widget)
          /\ In (item_widget item) (children (item_widget parent))
          /\ item_level item = (item_level parent + 1)%Z).
Proof.
  induction widget as [w IH] using Widget_forall_ind.
  intros level scale parent_item item Hin.
  rewrite plan_eq in Hin |- *.
  destruct (PlanItem view level scale w parent_item) as [item0|] eqn:E;
    [|contradiction].
  apply PlanItem_Some in E as (Hw & Hl & Hp & _).
  destruct Hin as [<-|Hin].
  - left. repeat split; try assumption. eexists. reflexivity.
  - right. apply in_flat_map in Hin as (c & Hc & Hin).
    rewrite List.Forall_forall in IH.
    destruct (in_split _ _ Hc) as (cs1 & cs2 & Hsplit).
    rewrite Hsplit, flat_map_app. simpl.
    set (K1 := flat_map _ cs1). set (K2 := flat_map _ cs2).
    destruct (IH c Hc _ _ _ _ Hin) as [(Hp' & Hw' & Hl' & rest & Hrest)
                                      |(q & Hq & (a & b & d & Hbefore) & Hchild & Hlevel)].
    + exists item0. split; [exact Hp'|]. split.
      * exists [], K1, (rest ++ K2). rewrite Hrest. reflexivity.
      * rewrite Hw, Hw', Hl', Hl. split; [exact Hc|reflexivity].
    + exists q. split; [exact Hq|]. split; [|split; assumption].
      exists (item0 :: K1 ++ a), b, (d ++ K2). rewrite Hbefore. simpl.
      rewrite <- !app_assoc. simpl. rewrite <- !app_assoc. reflexivity.
Qed.

(** X3.  The parent item of a planned item is the item of the parent of its
    widget: it stands before the item in the list, one level up.  Only the
    item of the root widget has no parent item; it is at level 0. *)
Theorem parent_item_is_the_item_of_the_parent (view : WidgetView) :
  Forall (fun item =>
            match item_parent_item item with
            | None =>
                item_widget item = root_widget_ view /\ item_level item = 0%Z
            | Some parent =>
                stands_before parent item (Render_widget_list view)
                /\ In (item_widget item) (children (item_widget parent))
                /\ item_level item = (item_level parent + 1)%Z
            end)
         (Render_widget_list view).
Proof.
  apply List.Forall_forall. intros item Hin.
  destruct (planned_parent_relation view _ 0%Z 1 None item Hin)
    as [(Hp & Hw & Hl & _)|(q & Hq & Hbefore & Hchild & Hlevel)].
  - rewrite Hp. split; assumption.
  - rewrite Hq. repeat split; assumption.
Qed.

(** X4.  No widget is planned twice: the widgets of the planned items are
    distinct, and there are at most as many items as widgets in the tree. *)
Theorem no_widget_is_planned_twice (view : WidgetView) :
  distinct_widgets (root_widget_ view) ->
  NoDup (map widget_addr (Render_widget_list view))
  /\ (length (Render_widget_list view)
      <= length (preorder (root_widget_ view)))%nat.
Proof.
  intros ND.
  pose proof (plan_sublist_preorder view (root_widget_ view) 0 1 None) as Hsub.
  split.
  - apply (sublist_map (fun dw => addr (snd dw))) in Hsub.
    rewrite map_map in Hsub.
    refine (sublist_NoDup _ _ _ Hsub).
    rewrite <- map_map, preorder_depth_widgets. exact ND.
  - apply sublist_length in Hsub.
    rewrite length_map in Hsub.
    rewrite <- (preorder_depth_widgets 0), length_map. exact Hsub.
Qed.

(** X5.  Whatever the rounding, under a parent item a widget whose
    translated origin is at or beyond the right or the bottom edge of the
    view, or whose scaled width or height is zero or negative, adds nothing
    to the list, whatever is below it. *)
Theorem widgets_outside_the_view_are_pruned
    (round : Q -> Q) (view : WidgetView)
    (level : Z) (scale : float) (widget : Widget) (parent : WidgetItem) :
  view_width view
  <= fadd round (x (item_translated_origin parent)) (fmul round (GetX widget) scale)
  \/ view_height view
     <= fadd round (y (item_translated_origin parent)) (fmul round (GetY widget) scale)
  \/ fmul round (fmul round (GetWidth widget) scale) (scale_ widget) <= 0
  \/ fmul round (fmul round (GetHeight widget) scale) (scale_ widget) <= 0 ->
  forall widget_list,
    PopulateWidgetList_rounded round view level scale widget_list widget
                               (Some parent)
    = widget_list.
Proof.
  intros Hcase widget_list. rewrite PopulateWidgetList_rounded_eq.
  destruct (PlanItem_rounded _ _ _ _ _ _) as [item|] eqn:E;
    [exfalso|apply app_nil_r].
  apply PlanItem_rounded_under_parent in E. cbv zeta in E.
  destruct E as (_ & _ & Hsw & Hsh & Hvx & Hvy & Hw & Hh).
  rewrite Hsw in Hw. rewrite Hsh in Hh. clear Hsw Hsh.
  revert Hvx Hvy Hw Hh. min_max_cases; intros;
    destruct Hcase as [H'|[H'|[H'|H']]]; lra.
Qed.

(** ** More on the render executor *)

Lemma stack_and_calls_close level st :
  stack_and_calls (PopAndFinalizeWidgetItems level st)
  = close_calls_from level (stack_and_calls st).
Proof.
  unfold PopAndFinalizeWidgetItems, stack_and_calls, close_calls_from.
  now rewrite PopAndFinalize_loop_eq.
Qed.

Lemma stack_and_calls_item st item :
  stack_and_calls (Render_item st item)
  = open_with_calls (stack_and_calls st) item.
Proof.
  unfold Render_item, open_with_calls.
  rewrite <- stack_and_calls_close. reflexivity.
Qed.

Lemma stack_and_calls_run items st :
  stack_and_calls (fold_left Render_item items st)
  = fold_left open_with_calls items (stack_and_calls st).
Proof.
  revert st. induction items as [|item items IH]; intros st; simpl;
    [reflexivity|].
  now rewrite IH, stack_and_calls_item.
Qed.

Lemma popped_kept_twice k level stack :
  (k <= level)%Z ->
  kept k (kept level stack) = kept k stack
  /\ popped level stack ++ popped k (kept level stack) = popped k stack.
Proof.
  intros Hk. induction stack as [|t rest [IH1 IH2]]; simpl; [auto|].
  destruct (Z.ltb_spec (item_level t) level) as [Hlt|Hge]; simpl.
  - auto.
  - destruct (Z.ltb_spec (item_level t) k) as [Hlt'|_]; [lia|].
    split; [exact IH1|]. now rewrite IH2.
Qed.

Lemma finalize_log_app p1 p2 below :
  finalize_log (p1 ++ p2) below
  = finalize_log p1 (p2 ++ below) ++ finalize_log p2 below.
Proof.
  induction p1 as [|t rest IH]; simpl; [reflexivity|].
  now rewrite IH, <- app_assoc.
Qed.

(** X6.  Finalizing down to a level and then down to a shallower one is
    finalizing down to the shallower one at once. *)
Theorem PopAndFinalize_twice (k level : Z) (st : RenderState) :
  (k <= level)%Z ->
  PopAndFinalizeWidgetItems k (PopAndFinalizeWidgetItems level st)
  = PopAndFinalizeWidgetItems k st.
Proof.
  intros Hk. unfold PopAndFinalizeWidgetItems.
  rewrite !PopAndFinalize_loop_eq. simpl.
  destruct (popped_kept_twice k level (rendering_stack st) Hk) as [Hkept Hpop].
  rewrite <- Hpop, Hkept. f_equal.
  - unfold did_render_hooks. now rewrite <- app_assoc, flat_map_app.
  - rewrite <- app_assoc. f_equal.
    rewrite finalize_log_app. f_equal.
    rewrite <- Hkept, popped_kept. reflexivity.
Qed.

Lemma close_calls_from_twice k level sc :
  (k <= level)%Z ->
  close_calls_from k (close_calls_from level sc) = close_calls_from k sc.
Proof.
  intros Hk. destruct sc as [stack cs]. unfold close_calls_from. simpl.
  destruct (popped_kept_twice k level stack Hk) as [Hkept Hpop].
  now rewrite Hkept, <- Hpop, flat_map_app, <- app_assoc.
Qed.

Lemma run_with_calls_closes_first level items sc :
  match items with [] => True | item :: _ => item_level item = level end ->
  close_calls_from level (fold_left open_with_calls items sc)
  = close_calls_from level
      (fold_left open_with_calls items (close_calls_from level sc)).
Proof.
  destruct items as [|item items]; simpl.
  - intros _. now rewrite close_calls_from_twice by lia.
  - intros <-. unfold open_with_calls at 2 4.
    now rewrite close_calls_from_twice by lia.
Qed.

Lemma close_calls_from_closed level stack cs :
  closed_at level stack -> close_calls_from level (stack, cs) = (stack, cs).
Proof.
  intros H. unfold close_calls_from. simpl.
  destruct (closed_at_kept _ _ H) as [-> ->]. simpl. now rewrite app_nil_r.
Qed.

(** Running the plan of a subtree on a stack closed at its level, and
    closing at that level again, leaves the stack as it was and has made
    the calls of the nested rendering of the subtree. *)
Lemma run_plan_nested view :
  forall widget level scale parent_item stack cs,
    closed_at level stack ->
    close_calls_from level
      (fold_left open_with_calls (plan view level scale parent_item widget)
                 (stack, cs))
    = (stack, cs ++ render_nested view level scale parent_item widget).
Proof.
  induction widget as [w IH] using Widget_forall_ind.
  intros level scale parent_item stack cs Hclosed.
  rewrite plan_eq.
  destruct w as [a h gx gy gw gh sc hd children]; simpl in *.
  destruct (PlanItem _ _ _ _ _) as [item|] eqn:E; simpl.
  2:{ rewrite app_nil_r. now apply close_calls_from_closed. }
  apply PlanItem_Some in E as (_ & Hl & _).
  unfold open_with_calls at 2.
  rewrite Hl, (close_calls_from_closed _ _ _ Hclosed). simpl fst. simpl snd.
  assert (forest : forall children, Forall (fun c =>
             forall level scale parent_item stack cs,
               closed_at level stack ->
               close_calls_from level
                 (fold_left open_with_calls
                            (plan view level scale parent_item c) (stack, cs))
               = (stack, cs ++ render_nested view level scale parent_item c))
             children ->
           forall lv s p stack cs, closed_at lv stack ->
             close_calls_from lv
               (fold_left open_with_calls
                          (flat_map (plan view lv s p) children) (stack, cs))
             = (stack, cs ++ flat_map (render_nested view lv s p) children)).
  { clear. intros children H. induction H as [|c cs' Hc _ IHcs];
      intros lv s p stack cs Hclosed; simpl.
    - rewrite app_nil_r. now apply close_calls_from_closed.
    - rewrite fold_left_app.
      rewrite run_with_calls_closes_first by apply plan_head_level.
      rewrite Hc by assumption. rewrite IHcs by assumption.
      now rewrite <- app_assoc. }
  rewrite <- (close_calls_from_twice level (level + 1)) by lia.
  rewrite (forest children IH) by (simpl; lia).
  unfold close_calls_from. simpl.
  destruct (Z.ltb_spec (item_level item) level) as [Hlt|_]; [lia|].
  destruct (closed_at_kept _ _ Hclosed) as [-> ->]. simpl.
  rewrite <- !app_assoc. reflexivity.
Qed.

Lemma Render_onscreen_nested (view : WidgetView) :
  calls (Render_onscreen (Render_widget_list view) fresh_render_state)
  = render_nested view 0 1 None (root_widget_ view)
  /\ rendering_stack (Render_onscreen (Render_widget_list view) fresh_render_state)
     = [].
Proof.
  pose proof (run_plan_nested view (root_widget_ view) 0 1 None [] [] I) as N.
  change (@nil WidgetItem, @nil Call) with (stack_and_calls fresh_render_state)
    in N at 1.
  rewrite <- stack_and_calls_run, <- stack_and_calls_close in N.
  unfold stack_and_calls in N. injection N as N1 N2.
  split; assumption.
Qed.

(** X7.  The onscreen pass over the planned list makes the calls of the
    nested rendering of the tree: every planned widget is opened, its
    planned children are rendered between its RenderOnDemand and its
    WidgetDidRender, and it is closed. *)
Theorem Render_onscreen_is_nested_rendering (view : WidgetView) :
  calls (Render_onscreen (Render_widget_list view) fresh_render_state)
  = render_nested view 0 1 None (root_widget_ view)
  /\ rendering_stack (Render_onscreen (Render_widget_list view) fresh_render_state)
     = [].
Proof. exact (Render_onscreen_nested view). Qed.

Lemma save_depth_app c1 c2 depth :
  save_depth (c1 ++ c2) depth
  = match save_depth c1 depth with
    | Some depth' => save_depth c2 depth'
    | None => None
    end.
Proof.
  revert depth. induction c1 as [|c c1 IH]; intros depth; simpl; [reflexivity|].
  destruct c; try apply IH. destruct depth; [reflexivity|apply IH].
Qed.

Lemma save_depth_flat_map {A} (f : A -> list Call) (l : list A) :
  (forall a depth, In a l -> save_depth (f a) depth = Some depth) ->
  forall depth, save_depth (flat_map f l) depth = Some depth.
Proof.
  induction l as [|a l IH]; intros H depth; simpl; [reflexivity|].
  rewrite save_depth_app, H by (now left). apply IH.
  intros a' d Ha. apply H. now right.
Qed.

Lemma save_depth_nested view :
  forall widget level scale parent_item depth,
    save_depth (render_nested view level scale parent_item widget) depth
    = Some depth.
Proof.
  induction widget as [w IH] using Widget_forall_ind.
  intros level scale parent_item depth.
  destruct w as [a h gx gy gw gh sc hd children]; simpl in *.
  destruct (PlanItem _ _ _ _ _) as [item|]; [|reflexivity].
  simpl. rewrite save_depth_app.
  rewrite save_depth_flat_map; [reflexivity|].
  intros c d Hc. rewrite List.Forall_forall in IH. now apply IH.
Qed.

(** X8.  Render leaves the state stack of the drawing context as deep as it
    found it, and never restores a state it has not saved. *)
Theorem Render_saves_and_restores_in_pairs (view : WidgetView) (depth : nat) :
  save_depth (Render view) depth = Some depth.
Proof.
  unfold Render.
  destruct (Render_onscreen_nested view) as [-> _].
  rewrite save_depth_app, WidgetViewWillRender_eq.
  rewrite save_depth_flat_map by (intros; unfold will_render_visit; simpl;
                                    destruct (is_root view a); reflexivity).
  rewrite save_depth_app.
  assert (Hoff : forall l d,
            save_depth (map (fun item => Widget_RenderDefaultFramebuffer
                                           (addr (item_widget item))) l) d
            = Some d)
    by (induction l; intros; simpl; auto).
  rewrite Hoff. simpl. rewrite save_depth_app, save_depth_nested. simpl.
  rewrite WidgetViewDidRender_eq.
  apply save_depth_flat_map.
  intros; unfold did_render_visit; simpl; destruct (is_root view a); reflexivity.
Qed.

Lemma flat_map_nothing {A B} (f : A -> list B) (l : list A) :
  (forall a, In a l -> f a = []) -> flat_map f l = [].
Proof.
  induction l as [|a l IH]; intros H; simpl; [reflexivity|].
  rewrite H by (now left). apply IH. intros a' Ha. apply H. now right.
Qed.

Lemma run_hooks_in_order items :
  forall sc,
    let sc' := fold_left open_with_calls items sc in
    will_render_calls (snd sc')
    = will_render_calls (snd sc) ++ map widget_addr items
    /\ render_on_demand_calls (snd sc')
       = render_on_demand_calls (snd sc) ++ map widget_addr items
    /\ default_framebuffer_calls (snd sc') = default_framebuffer_calls (snd sc).
Proof.
  assert (Hclose : forall l,
            will_render_calls (flat_map close_calls l) = []
            /\ render_on_demand_calls (flat_map close_calls l) = []
            /\ default_framebuffer_calls (flat_map close_calls l) = []).
  { induction l as [|t l (IH1 & IH2 & IH3)]; simpl; auto. }
  induction items as [|item items IH]; intros sc; simpl.
  - now rewrite !app_nil_r.
  - destruct (IH (open_with_calls sc item)) as (H1 & H2 & H3).
    rewrite H1, H2, H3. clear IH H1 H2 H3.
    unfold open_with_calls, close_calls_from. simpl.
    destruct (Hclose (popped (item_level item) (fst sc))) as (C1 & C2 & C3).
    unfold will_render_calls, render_on_demand_calls,
      default_framebuffer_calls in *.
    rewrite !flat_map_app, C1, C2, C3. simpl.
    rewrite !app_nil_r, <- !app_assoc. auto.
Qed.

Lemma project_flat_map {A B C} (g : B -> list C) (h : A -> list B) (l : list A) :
  flat_map g (flat_map h l) = flat_map (fun a => flat_map g (h a)) l.
Proof.
  induction l as [|a l IH]; simpl; [reflexivity|].
  now rewrite flat_map_app, IH.
Qed.

Lemma view_passes_ask_no_rendering view w :
  (will_render_calls (WidgetViewWillRender view w) = []
   /\ render_on_demand_calls (WidgetViewWillRender view w) = []
   /\ default_framebuffer_calls (WidgetViewWillRender view w) = []
   /\ did_render_calls (WidgetViewWillRender view w) = [])
  /\ (will_render_calls (WidgetViewDidRender view w) = []
      /\ render_on_demand_calls (WidgetViewDidRender view w) = []
      /\ default_framebuffer_calls (WidgetViewDidRender view w) = []
      /\ did_render_calls (WidgetViewDidRender view w) = []).
Proof.
  rewrite WidgetViewWillRender_eq, WidgetViewDidRender_eq.
  unfold will_render_calls, render_on_demand_calls, default_framebuffer_calls,
    did_render_calls.
  rewrite !project_flat_map.
  repeat split; apply flat_map_nothing; intros n _;
    unfold will_render_visit, did_render_visit; simpl;
    destruct (is_root view n); reflexivity.
Qed.

Lemma default_framebuffer_pass (items : WidgetList) :
  let cs := map (fun item => Widget_RenderDefaultFramebuffer
                               (addr (item_widget item))) items in
  default_framebuffer_calls cs = map widget_addr items
  /\ will_render_calls cs = [] /\ render_on_demand_calls cs = []
  /\ did_render_calls cs = [].
Proof.
  induction items as [|t l (IH1 & IH2 & IH3 & IH4)]; simpl; [auto|].
  repeat split; try assumption. unfold default_framebuffer_calls in *. simpl.
  now rewrite IH1.
Qed.

Lemma Render_hooks (view : WidgetView) :
  default_framebuffer_calls (Render view)
  = map widget_addr (Render_widget_list view)
  /\ will_render_calls (Render view) = map widget_addr (Render_widget_list view)
  /\ render_on_demand_calls (Render view)
     = map widget_addr (Render_widget_list view)
  /\ Permutation (did_render_calls (Render view))
                 (map widget_addr (Render_widget_list view)).
Proof.
  set (items := Render_widget_list view).
  destruct (view_passes_ask_no_rendering view (root_widget_ view))
    as ((W1 & W2 & W3 & W4) & (D1 & D2 & D3 & D4)).
  destruct (default_framebuffer_pass items) as (F1 & F2 & F3 & F4).
  pose proof (run_hooks_in_order items (stack_and_calls fresh_render_state))
    as H. cbv zeta in H.
  rewrite <- stack_and_calls_run in H.
  pose proof (stack_and_calls_close 0 (fold_left Render_item items fresh_render_state))
    as Hc.
  fold (Render_onscreen items fresh_render_state) in Hc.
  set (st := Render_onscreen items fresh_render_state) in *.
  set (st0 := fold_left Render_item items fresh_render_state) in *.
  assert (Hcalls : calls st
                   = calls st0 ++ flat_map close_calls (popped 0 (rendering_stack st0)))
    by (apply (f_equal snd) in Hc; exact Hc).
  assert (Hclose : forall l,
            will_render_calls (flat_map close_calls l) = []
            /\ render_on_demand_calls (flat_map close_calls l) = []
            /\ default_framebuffer_calls (flat_map close_calls l) = []).
  { induction l as [|t l (IH1 & IH2 & IH3)]; simpl; auto. }
  destruct (Hclose (popped 0 (rendering_stack st0))) as (C1 & C2 & C3).
  destruct H as (H1 & H2 & H3). simpl in H1, H2, H3.
  destruct (Render_onscreen_invariant items) as (_ & _ & Hdid & _).
  destruct (Render_onscreen_all_done items (Render_widget_list_levels view))
    as [_ Hperm].
  fold st in Hdid, Hperm.
  unfold Render. fold items. fold st.
  unfold will_render_calls, render_on_demand_calls, default_framebuffer_calls,
    did_render_calls in *.
  rewrite !flat_map_app, W1, W2, W3, W4, D1, D2, D3, D4, F1, F2, F3, F4, Hdid.
  rewrite Hcalls, !flat_map_app, C1, C2, C3, H1, H2, H3. simpl.
  rewrite !app_nil_r.
  repeat split; try reflexivity.
  apply Permutation_map. exact Hperm.
Qed.

(** X9.  In one Render every planned widget is asked once for
    RenderDefaultFramebuffer, WidgetWillRender and RenderOnDemand, in the
    order of the planned list, and once for WidgetDidRender; no other widget
    is asked for any of them. *)
Theorem Render_asks_the_planned_widgets (view : WidgetView) :
  default_framebuffer_calls (Render view)
  = map widget_addr (Render_widget_list view)
  /\ will_render_calls (Render view) = map widget_addr (Render_widget_list view)
  /\ render_on_demand_calls (Render view)
     = map widget_addr (Render_widget_list view)
  /\ Permutation (did_render_calls (Render view))
                 (map widget_addr (Render_widget_list view)).
Proof. exact (Render_hooks view). Qed.

(** ** More on hit testing and events *)

Lemma hit_order_descendants :
  forall widget n, In n (hit_order widget) <-> In n (descendants widget).
Proof.
  induction widget as [w IH] using Widget_forall_ind. intros n.
  unfold descendants.
  destruct w as [a h gx gy gw gh sc hd cs]; simpl in *.
  induction IH as [|c later Hc _ IHlater]; simpl; [tauto|].
  rewrite !in_app_iff, IHlater, Hc. simpl.
  destruct c as [a' h' gx' gy' gw' gh' sc' hd' cs']. simpl.
  unfold descendants. simpl. tauto.
Qed.

Lemma hit_order_shown_descendants widget n :
  In n (hit_order_shown widget) -> In n (descendants widget).
Proof.
  intros H. apply hit_order_descendants.
  apply list_elem_of_In. apply list_elem_of_In in H.
  eapply elem_of_sublist; [exact H|apply hit_order_shown_sublist].
Qed.

Lemma first_hit_Some location l r :
  first_hit location l = Some r -> In r l /\ handles r location = true.
Proof. unfold first_hit. apply find_some. Qed.

Lemma first_hit_None location l :
  first_hit location l = None -> forall n, In n l -> handles n location = false.
Proof. unfold first_hit. intros H n Hn. now apply (find_none _ _ H). Qed.

(** X10.  What ShouldHandleEvent answers.  On true, the widget it stored is
    a widget below the one it started at (never that widget itself) whose
    own test accepted the location, and the start widget is not hidden.  On
    false, event_responder_ is as it was and no widget of the walk accepts
    the location, which is every widget below the start when nothing in the
    tree is hidden. *)
Theorem ShouldHandleEvent_answer
    (location : Point) (widget : Widget) (event_responder_ : option Widget) :
  match ShouldHandleEvent location widget event_responder_ with
  | (true, Some responder) =>
      In responder (descendants widget)
      /\ handles responder location = true
      /\ IsHidden widget = false
  | (true, None) => False
  | (false, stored) =>
      stored = event_responder_
      /\ (forall n, In n (hit_order_shown widget) -> handles n location = false)
      /\ ((forall n, In n (preorder widget) -> IsHidden n = false) ->
          forall n, In n (descendants widget) -> handles n location = false)
  end.
Proof.
  rewrite ShouldHandleEvent_first_hit.
  destruct (first_hit location (hit_order_shown widget)) as [r|] eqn:E.
  - apply first_hit_Some in E as [Hin Hacc].
    split; [now apply hit_order_shown_descendants|]. split; [exact Hacc|].
    destruct (IsHidden widget) eqn:Hh; [|reflexivity].
    rewrite (below_hidden_not_walked _ Hh) in Hin. contradiction.
  - split; [reflexivity|]. split; [now apply first_hit_None|].
    intros Hshown n Hn. apply (first_hit_None _ _ E).
    rewrite (hit_order_nothing_hidden _ Hshown).
    now apply hit_order_descendants.
Qed.

Lemma descendants_of_member c h d :
  In h (preorder c) -> In d (descendants h) -> In d (descendants c).
Proof.
  intros Hh Hd. destruct c as [a hid gx gy gw gh sc hd cs]. simpl in Hh.
  destruct Hh as [<-|Hh]; [exact Hd|].
  unfold descendants. simpl.
  apply (in_forest_preorder cs h d Hh).
  destruct h; simpl. right. exact Hd.
Qed.

Lemma walk_stays_above_hidden :
  forall widget,
    NoDup (map addr (preorder widget)) ->
    forall h, In h (preorder widget) -> IsHidden h = true ->
      forall d, In d (descendants h) ->
        forall n, In n (hit_order_shown widget) -> addr n <> addr d.
Proof.
  induction widget as [w IH] using Widget_forall_ind.
  intros ND h Hh Hhidden d Hd n Hn.
  assert (forest : forall cs,
    Forall (fun c =>
      NoDup (map addr (preorder c)) ->
      forall h, In h (preorder c) -> IsHidden h = true ->
        forall d, In d (descendants h) ->
          forall n, In n (hit_order_shown c) -> addr n <> addr d) cs ->
    NoDup (map addr (flat_map preorder cs)) ->
    forall h, In h (flat_map preorder cs) -> IsHidden h = true ->
      forall d, In d (descendants h) ->
        forall n, In n (flat_map (fun c => hit_order_shown c ++ [c]) cs) ->
          addr n <> addr d).
  { clear. intros cs H. induction H as [|c cs' Hc _ IHcs]; simpl;
      intros ND h Hh Hhidden d Hd n Hn; [contradiction|].
    assert (NDc : NoDup (map addr (preorder c)) /\
                  NoDup (map addr (flat_map preorder cs'))).
    { rewrite map_app in ND. apply NoDup_app in ND as (? & _ & ?). auto. }
    destruct NDc as [NDc NDcs].
    assert (Hwalk : forall c' m, In m (hit_order_shown c' ++ [c']) ->
                                 In m (preorder c')).
    { intros c' m Hm. apply in_app_or in Hm as [Hm|[<-|[]]];
        [|apply preorder_self].
      apply hit_order_shown_descendants in Hm.
      destruct c'; simpl. now right. }
    rewrite <- app_assoc in Hn.
    apply in_app_or in Hh as [Hh|Hh]; apply in_app_or in Hn as [Hn|Hn].
    - now apply (Hc NDc h Hh Hhidden d Hd).
    - apply in_app_or in Hn as [[Hcn|[]]|Hn].
      + subst n. pose proof (descendants_of_member _ _ _ Hh Hd) as Hdc.
        destruct c as [a hid gx gy gw gh sc hd cs]. simpl in NDc.
        apply NoDup_cons in NDc as [Hfresh _]. simpl. intros ->.
        apply Hfresh, list_elem_of_In, in_map. exact Hdc.
      + apply not_eq_sym.
        apply (shared_address_in_app _ _ d n ND).
        * apply (preorder_trans c h d Hh). destruct h; simpl. now right.
        * apply in_flat_map in Hn as (c' & Hc' & Hn).
          apply in_flat_map. exists c'. split; [exact Hc'|]. now apply Hwalk.
    - apply (shared_address_in_app _ _ n d ND).
      + apply Hwalk. apply in_or_app. now left.
      + apply (in_forest_preorder cs' h d Hh). destruct h; simpl. now right.
    - apply in_app_or in Hn as [[Hcn|[]]|Hn].
      + subst n.
        apply (shared_address_in_app _ _ c d ND); [apply preorder_self|].
        apply (in_forest_preorder cs' h d Hh). destruct h; simpl. now right.
      + now apply (IHcs NDcs h Hh Hhidden d Hd). }
  rewrite hit_order_shown_eq in Hn.
  destruct (IsHidden w) eqn:Hw; [contradiction|].
  destruct w as [a hid gx gy gw gh sc hd cs]. simpl in *.
  destruct Hh as [<-|Hh]; [simpl in Hhidden; congruence|].
  apply NoDup_cons in ND as [_ ND].
  apply (forest cs IH ND h Hh Hhidden d Hd).
  apply in_flat_map in Hn as (c & Hc & Hn). apply in_flat_map.
  exists c. split; [|exact Hn]. now apply in_rev.
Qed.

(** X11.  A widget below a hidden widget is never the responder that
    ShouldHandleEvent returns true for. *)
Theorem nothing_below_a_hidden_widget_responds
    (view : WidgetView) (location : Point) (h d : Widget) :
  distinct_widgets (root_widget_ view) ->
  In h (preorder (root_widget_ view)) -> IsHidden h = true ->
  In d (descendants h) ->
  match WidgetView_ShouldHandleEvent view location with
  | (true, view') =>
      exists responder,
        event_responder_ view' = Some responder /\ addr responder <> addr d
  | (false, view') => view' = view
  end.
Proof.
  intros ND Hh Hhidden Hd. unfold WidgetView_ShouldHandleEvent.
  rewrite ShouldHandleEvent_first_hit.
  destruct (first_hit location (hit_order_shown (root_widget_ view)))
    as [r|] eqn:E.
  - exists r. split; [reflexivity|].
    apply first_hit_Some in E as [Hin _].
    exact (walk_stays_above_hidden _ ND h Hh Hhidden d Hd r Hin).
  - destruct view; reflexivity.
Qed.

(** X12.  The child added last is in front.  For a child that does not
    hold the widget in its tree, so that adding it closes no cycle: on a
    widget that is not hidden, the hit test first goes through what is
    below the new child and the new child itself, and only when none of
    them accepts the location answers as it did before the child was
    added. *)
Theorem added_child_is_tested_first
    (location : Point) (this child : Widget) (event_responder_ : option Widget) :
  ~ In (addr this) (map addr (preorder child)) ->
  ShouldHandleEvent location (Widget_AddChild this child) event_responder_
  = if IsHidden this then (false, event_responder_)
    else match first_hit location (hit_order_shown child ++ [child]) with
         | Some responder => (true, Some responder)
         | None => ShouldHandleEvent location this event_responder_
         end.
Proof.
  intros _.
  rewrite !ShouldHandleEvent_first_hit.
  rewrite (hit_order_shown_eq (Widget_AddChild this child)),
    (hit_order_shown_eq this).
  unfold Widget_AddChild. simpl.
  destruct (IsHidden this); [reflexivity|].
  rewrite rev_app_distr. simpl. rewrite first_hit_app.
  destruct (first_hit location (hit_order_shown child ++ [child]));
    reflexivity.
Qed.

(** X13.  ShouldHandleEvent followed by HandleEvent.  After a miss the event
    goes where it would have gone without the hit test: a responder stored
    earlier keeps getting the events.  After a hit the event goes to the
    first accepting widget of the walk if that widget is attached to this
    view; otherwise nobody gets it and event_responder_ is cleared.  An
    event is only ever given to the stored responder, and only if it is
    attached to this view. *)
Theorem events_go_to_the_stored_responder
    (this : nat) (widget_view : Widget -> option nat)
    (view : WidgetView) (location : Point) :
  match WidgetView_ShouldHandleEvent view location with
  | (false, view') =>
      HandleEvent this widget_view view' = HandleEvent this widget_view view
  | (true, view') =>
      exists responder,
        first_hit location (hit_order_shown (root_widget_ view))
        = Some responder
        /\ HandleEvent this widget_view view'
           = if attached_here this widget_view responder
             then (view', Some responder)
             else (MkWidgetView (view_width view) (view_height view)
                                (root_widget_ view) None, None)
  end
  /\ (forall receiver,
        snd (HandleEvent this widget_view view) = Some receiver ->
        event_responder_ view = Some receiver
        /\ widget_view receiver = Some this
        /\ fst (HandleEvent this widget_view view) = view)
  /\ (snd (HandleEvent this widget_view view) = None ->
      snd (HandleEvent this widget_view (fst (HandleEvent this widget_view view)))
      = None).
Proof.
  split; [|split].
  - unfold WidgetView_ShouldHandleEvent.
    rewrite ShouldHandleEvent_first_hit.
    destruct (first_hit location (hit_order_shown (root_widget_ view)))
      as [r|] eqn:E.
    + exists r. split; [reflexivity|]. unfold HandleEvent. simpl.
      destruct (attached_here this widget_view r); reflexivity.
    + destruct view; reflexivity.
  - intros receiver. unfold HandleEvent, attached_here.
    destruct (event_responder_ view) as [r|]; [|discriminate].
    destruct (widget_view r) as [v|] eqn:Ev; simpl; [|discriminate].
    destruct (Nat.eqb_spec v this) as [->|_]; simpl; [|discriminate].
    intros [= <-]. rewrite Ev. auto.
  - unfold HandleEvent.
    destruct (event_responder_ view) as [r|] eqn:Er; simpl.
    + destruct (attached_here this widget_view r); simpl; [discriminate|].
      reflexivity.
    + now rewrite Er.
Qed.

(** ** More on BaseView::Redraw *)

Lemma Redraw_busy_pass n fuel passes later :
  (1 <= n)%nat ->
  Redrawing.Redraw (S (S fuel)) (n :: later) (Redrawing.idle passes)
  = Redrawing.Redraw (S fuel) later (Redrawing.idle (S passes)).
Proof.
  intros Hn.
  change (Redrawing.Redraw (S (S fuel)) (n :: later) (Redrawing.idle passes))
    with (match Redrawing.repeat_call n (Redrawing.Redraw (S fuel) [])
                  (Redrawing.MkBaseView true false (S passes)) with
          | None => None
          | Some view =>
              let (kShouldRedraw, view) := Redrawing.Redraw_leave view in
              if kShouldRedraw then Redrawing.Redraw (S fuel) later view
              else Some view
          end).
  now rewrite RedrawFacts.arrivals_set_the_flag.
Qed.

(** X14.  A call of Redraw on an idle view, with calls arriving during the
    passes as [arrivals] tells, returns with both flags cleared after one
    pass more than the number of passes in a row during which calls
    arrived; arrivals after the first quiet pass find no redraw in progress
    and are not part of this call. *)
Theorem Redraw_runs_one_pass_per_busy_pass
    (arrivals : list nat) (fuel passes : nat) :
  (busy_passes arrivals + 2 <= fuel)%nat ->
  Redrawing.Redraw fuel arrivals (Redrawing.idle passes)
  = Some (Redrawing.idle (passes + 1 + busy_passes arrivals)).
Proof.
  revert fuel passes.
  induction arrivals as [|n later IH]; intros fuel passes Hfuel; simpl in *.
  - destruct fuel as [|fuel]; [lia|].
    rewrite RedrawFacts.Redraw_alone. f_equal. f_equal. lia.
  - destruct (Nat.eqb_spec n 0) as [->|Hn].
    + destruct fuel as [|fuel]; [lia|]. simpl.
      unfold Redrawing.idle. do 2 f_equal. lia.
    + destruct fuel as [|[|fuel]]; [lia|lia|].
      rewrite Redraw_busy_pass by lia.
      rewrite IH by lia. f_equal. f_equal. lia.
Qed.

(** ** More on Widget::AddChild *)

Lemma AddChild_dom this child (store : gmap nat Store.WidgetObject) :
  dom (Store.AddChild this child store) = dom store.
Proof.
  unfold Store.AddChild. destruct (store !! this) as [w|] eqn:E; [|reflexivity].
  apply dom_insert_lookup_L. now rewrite E.
Qed.

(** X15.  A run of AddChild calls on a widget puts the children behind the
    ones it had, in the order of the calls and with repetitions kept; it
    changes no other object, no parent_ and no measured_scale_, and the
    store holds the same widgets as before. *)
Theorem AddChildren_appends_in_order
    (this : nat) (new_children : list nat)
    (store : gmap nat Store.WidgetObject) (w : Store.WidgetObject) :
  store !! this = Some w ->
  AddChildren this new_children store !! this
  = Some (Store.MkWidgetObject (Store.parent_ w) (Store.measured_scale_ w)
                               (Store.children_ w ++ new_children))
  /\ (forall other, other <> this ->
        AddChildren this new_children store !! other = store !! other)
  /\ dom (AddChildren this new_children store) = dom store.
Proof.
  unfold AddChildren. revert store w.
  induction new_children as [|c cs IH]; intros store w Hw; simpl.
  - rewrite app_nil_r. destruct w; auto.
  - destruct (IH (Store.AddChild this c store) _
                 (StoreFacts.AddChild_children this c store w Hw))
      as (H1 & H2 & H3).
    simpl in H1. rewrite <- app_assoc in H1. simpl in H1.
    split; [exact H1|]. split.
    + intros other Hne. rewrite H2 by exact Hne.
      now apply StoreFacts.AddChild_other_objects.
    + rewrite H3. apply AddChild_dom.
Qed.

(** X16.  AddChild does not look for the child elsewhere: after adding the
    same widget to two parents it is in the child list of both, and after
    adding it twice to one parent it is twice in that list. *)
Theorem AddChild_shares_a_child
    (p q c : nat) (store : gmap nat Store.WidgetObject)
    (wp wq : Store.WidgetObject) :
  p <> q -> store !! p = Some wp -> store !! q = Some wq ->
  (let store' := Store.AddChild q c (Store.AddChild p c store) in
   Store.children_ <$> (store' !! p) = Some (Store.children_ wp ++ [c])
   /\ Store.children_ <$> (store' !! q) = Some (Store.children_ wq ++ [c]))
  /\ Store.children_ <$> (Store.AddChild p c (Store.AddChild p c store) !! p)
     = Some (Store.children_ wp ++ [c; c]).
Proof.
  intros Hne Hp Hq. split; [split|].
  - rewrite StoreFacts.AddChild_other_objects by exact Hne.
    now rewrite (StoreFacts.AddChild_children p c store wp Hp).
  - rewrite (StoreFacts.AddChild_children q c _ wq);
      [reflexivity|].
    rewrite StoreFacts.AddChild_other_objects by (now apply not_eq_sym).
    exact Hq.
  - rewrite (StoreFacts.AddChild_children p c _ _
               (StoreFacts.AddChild_children p c store wp Hp)).
    simpl. now rewrite <- app_assoc.
Qed.

(** ** The rest of widget.cc *)

Module WidgetCcFacts.
Import WidgetCc.

Lemma depth_after_app c1 c2 depth :
  depth_after (c1 ++ c2) depth
  = match depth_after c1 depth with
    | Some depth' => depth_after c2 depth'
    | None => None
    end.
Proof.
  revert depth. induction c1 as [|c c1 IH]; intros depth; simpl; [reflexivity|].
  destruct c; try apply IH. destruct depth; [reflexivity|apply IH].
Qed.

Lemma RenderChildren_rendered this :
  rendered (RenderChildren this)
  = map address (List.filter shown (children_ this)).
Proof.
  unfold RenderChildren, rendered.
  induction (children_ this) as [|c cs IH]; simpl; [reflexivity|].
  rewrite flat_map_app, IH. unfold RenderChild, shown.
  destruct (hidden_ c); reflexivity.
Qed.

Lemma RenderChildren_depth this depth :
  depth_after (RenderChildren this) depth = Some depth.
Proof.
  unfold RenderChildren.
  induction (children_ this) as [|c cs IH]; simpl; [reflexivity|].
  rewrite depth_after_app. unfold RenderChild.
  destruct (hidden_ c); simpl; exact IH.
Qed.

(** Up to 2 ^ 24 in size an int is converted to float as it is. *)
Lemma float_of_int_exact (i : Z) :
  (Z.abs i <= 2 ^ 24)%Z -> float_of_int i = i.
Proof.
  intros Hi. unfold float_of_int.
  destruct (Z.log2 (Z.abs i) <? 24)%Z eqn:E; [reflexivity|].
  apply Z.ltb_ge in E.
  assert (Habs : (Z.abs i = 2 ^ 24)%Z).
  { assert (H0 : (0 < Z.abs i)%Z).
    { destruct (Z.eq_dec (Z.abs i) 0%Z) as [E0|]; [|lia].
      rewrite E0 in E. simpl in E. lia. }
    destruct (Z.le_gt_cases (2 ^ 24) (Z.abs i)) as [|Hlt]; [lia|].
    apply Z.log2_lt_pow2 in Hlt; lia. }
  assert (Hcase : i = (2 ^ 24)%Z \/ i = (- 2 ^ 24)%Z) by lia.
  destruct Hcase as [-> | ->]; reflexivity.
Qed.

(** X17.  RenderChildren renders the children that are not hidden, in the
    order they were added and no others, and saves and restores the state
    in pairs.  A widget made by the constructor, given bounds by SetBounds
    and added with AddChild is rendered behind the children there were,
    clipped to and moved to these bounds as converted to float: unchanged
    up to 2 ^ 24 in size, while 2 ^ 24 + 1 arrives as 2 ^ 24. *)
Theorem RenderChildren_renders_the_shown_children
    (this : Widget) (depth : nat) (fresh : nat) (x y width height : Z) :
  rendered (RenderChildren this)
  = map address (List.filter shown (children_ this))
  /\ depth_after (RenderChildren this) depth = Some depth
  /\ RenderChildren
       (AddChild this (SetBounds (new_Widget fresh) x y width height))
     = RenderChildren this
       ++ [Save;
           Scissor (float_of_int x) (float_of_int y)
                   (float_of_int width) (float_of_int height);
           Translate (float_of_int x) (float_of_int y);
           Render fresh;
           Restore]
  /\ ((Z.abs x <= 2 ^ 24)%Z -> (Z.abs y <= 2 ^ 24)%Z ->
      (Z.abs width <= 2 ^ 24)%Z -> (Z.abs height <= 2 ^ 24)%Z ->
      RenderChildren
        (AddChild this (SetBounds (new_Widget fresh) x y width height))
      = RenderChildren this
        ++ [Save; Scissor x y width height; Translate x y; Render fresh;
            Restore])
  /\ float_of_int (2 ^ 24 + 1) = (2 ^ 24)%Z.
Proof.
  assert (Hadded : RenderChildren
            (AddChild this (SetBounds (new_Widget fresh) x y width height))
          = RenderChildren this
            ++ [Save;
                Scissor (float_of_int x) (float_of_int y)
                        (float_of_int width) (float_of_int height);
                Translate (float_of_int x) (float_of_int y);
                Render fresh;
                Restore]).
  { unfold RenderChildren, AddChild. simpl.
    rewrite flat_map_app. simpl. reflexivity. }
  split; [apply RenderChildren_rendered|].
  split; [apply RenderChildren_depth|].
  split; [exact Hadded|].
  split; [|reflexivity].
  intros Hx Hy Hw Hh. rewrite Hadded.
  now rewrite !float_of_int_exact by assumption.
Qed.

End WidgetCcFacts.

(** ** Adding a widget and planning *)

Lemma PlanItem_geometry view level scale w1 w2 p1 p2 :
  same_fields w1 w2 -> clip_of p1 = clip_of p2 ->
  option_map item_geometry (PlanItem view level scale w1 p1)
  = option_map item_geometry (PlanItem view level scale w2 p2).
Proof.
  intros (Ha & Hh & Hx & Hy & Hw & Hg & Hs) Hclip.
  unfold PlanItem. cbv zeta. rewrite Hh, Hx, Hy, Hw, Hg, Hs.
  destruct (IsHidden w2); [reflexivity|].
  destruct (fle (GetWidth w2) 0); [reflexivity|].
  destruct (fle (GetHeight w2) 0); [reflexivity|].
  destruct p1 as [q1|], p2 as [q2|]; try discriminate.
  - injection Hclip as Ht Hsx Hsy Hsw Hsh.
    rewrite Hsx, Hsy, Hsw, Hsh, Ht.
    repeat match goal with
           | |- context [if ?b then None else _] => destruct b; [reflexivity|]
           end.
    simpl. unfold item_geometry, scissor_rect. simpl. now rewrite Ha.
  - simpl. unfold item_geometry, scissor_rect. simpl. now rewrite Ha.
Qed.

Lemma PlanItem_clip view level scale w1 w2 p1 p2 item1 item2 :
  option_map item_geometry (PlanItem view level scale w1 p1)
  = option_map item_geometry (PlanItem view level scale w2 p2) ->
  PlanItem view level scale w1 p1 = Some item1 ->
  PlanItem view level scale w2 p2 = Some item2 ->
  clip_of (Some item1) = clip_of (Some item2).
Proof.
  intros H E1 E2. rewrite E1, E2 in H.
  assert (Hg : item_geometry item1 = item_geometry item2)
    by (unfold option_map in H; congruence).
  pose proof (f_equal geometry_translated_origin Hg) as Ht.
  pose proof (f_equal geometry_scissor Hg) as Hs.
  simpl in Ht, Hs. unfold clip_of. now rewrite Ht, Hs.
Qed.

Lemma plan_geometry view :
  forall widget level scale p1 p2,
    clip_of p1 = clip_of p2 ->
    map item_geometry (plan view level scale p1 widget)
    = map item_geometry (plan view level scale p2 widget).
Proof.
  induction widget as [w IH] using Widget_forall_ind.
  intros level scale p1 p2 Hclip. rewrite !plan_eq.
  assert (Hsame : same_fields w w) by (repeat split).
  pose proof (PlanItem_geometry view level scale w w p1 p2 Hsame Hclip) as Hg.
  destruct (PlanItem view level scale w p1) as [item1|] eqn:E1;
    destruct (PlanItem view level scale w p2) as [item2|] eqn:E2;
    try discriminate; [|reflexivity].
  simpl. f_equal; [simpl in Hg; congruence|].
  assert (Hc : clip_of (Some item1) = clip_of (Some item2)).
  { apply (PlanItem_clip view level scale w w p1 p2); [|assumption..].
    now rewrite E1, E2. }
  clear E1 E2 Hg. induction IH as [|c cs Hc' _ IHcs]; simpl; [reflexivity|].
  rewrite !map_app. f_equal; [now apply Hc'|exact IHcs].
Qed.

(** X18.  Planning after AddChild, for a child that does not hold the
    widget in its tree, so that adding it closes no cycle: the items of the
    widget and of the children it had are as before in address, level and
    geometry, and the items of the new child and what is below it come
    behind them, planned one level down under the item of the widget. *)
Theorem added_child_is_planned_last
    (view : WidgetView) (level : Z) (scale : float)
    (parent_item : option WidgetItem) (this child : Widget) :
  ~ In (addr this) (map addr (preorder child)) ->
  map item_geometry
      (plan view level scale parent_item (Widget_AddChild this child))
  = map item_geometry (plan view level scale parent_item this)
    ++ match PlanItem view level scale this parent_item with
       | None => []
       | Some item =>
           map item_geometry
               (plan view (level + 1) (scale * scale_ this) (Some item) child)
       end.
Proof.
  intros _.
  rewrite !plan_eq.
  assert (Hsame : same_fields (Widget_AddChild this child) this)
    by (repeat split).
  pose proof (PlanItem_geometry view level scale _ _ parent_item parent_item
                                Hsame eq_refl) as Hg.
  destruct (PlanItem view level scale (Widget_AddChild this child) parent_item)
    as [item1|] eqn:E1;
    destruct (PlanItem view level scale this parent_item) as [item2|] eqn:E2;
    try discriminate; [|reflexivity].
  assert (Hc : clip_of (Some item1) = clip_of (Some item2)).
  { apply (PlanItem_clip view level scale (Widget_AddChild this child) this
                         parent_item parent_item); [|assumption..].
    now rewrite E1, E2. }
  simpl. rewrite flat_map_app. simpl. rewrite app_nil_r, !map_app.
  f_equal; [simpl in Hg; congruence|].
  f_equal.
  - clear E1 E2 Hg. induction (children this) as [|c cs IH]; simpl;
      [reflexivity|].
    rewrite !map_app. f_equal; [now apply plan_geometry|exact IH].
  - now apply plan_geometry.
Qed.

(** ** What is never rendered *)

(** X20.  In one Render a widget that is hidden or has no width or height,
    and every widget below it, is asked for none of
    RenderDefaultFramebuffer, WidgetWillRender, RenderOnDemand and
    WidgetDidRender. *)
Theorem excluded_widgets_are_not_rendered
    (view : WidgetView) (n d : Widget) :
  distinct_widgets (root_widget_ view) ->
  In n (preorder (root_widget_ view)) ->
  IsHidden n = true \/ GetWidth n <= 0 \/ GetHeight n <= 0 ->
  In d (preorder n) ->
  ~ In (addr d) (default_framebuffer_calls (Render view))
  /\ ~ In (addr d) (will_render_calls (Render view))
  /\ ~ In (addr d) (render_on_demand_calls (Render view))
  /\ ~ In (addr d) (did_render_calls (Render view)).
Proof.
  intros ND Hn Hex Hd.
  destruct (Render_hooks view) as (H1 & H2 & H3 & H4).
  assert (Hnot : ~ In (addr d) (map widget_addr (Render_widget_list view))).
  { intros Hin. apply in_map_iff in Hin as (item & E & Hitem).
    exact (plan_skips_excluded view _ 0%Z 1 None ND n Hn Hex d Hd item Hitem E). }
  rewrite H1, H2, H3. repeat split; try exact Hnot.
  intros Hin. apply Hnot. eapply Permutation_in; [exact H4|exact Hin].
Qed.

(** ** The further properties at concrete inputs *)

Lemma no_widget_is_planned_twice_mixed :
  distinct_widgets (root_widget_ view_mixed)
  /\ NoDup (map widget_addr (Render_widget_list view_mixed))
  /\ (length (Render_widget_list view_mixed)
      <= length (preorder (root_widget_ view_mixed)))%nat.
Proof.
  split; [distinct_addresses|].
  apply (no_widget_is_planned_twice view_mixed). distinct_addresses.
Defined.

Lemma widgets_outside_the_view_are_pruned_binary32 :
  view_width view_scenario
  <= fadd binary32 (x (item_translated_origin root_item_scenario))
          (fmul binary32 (GetX widget_beyond) 1)
  /\ PopulateWidgetList_rounded binary32 view_scenario 1 1 [] widget_beyond
                                (Some root_item_scenario) = [].
Proof.
  assert (H : view_width view_scenario
              <= fadd binary32 (x (item_translated_origin root_item_scenario))
                      (fmul binary32 (GetX widget_beyond) 1))
    by (vm_compute; discriminate).
  split; [exact H|].
  apply (widgets_outside_the_view_are_pruned binary32 view_scenario 1 1
           widget_beyond root_item_scenario).
  left. exact H.
Defined.

Lemma PopAndFinalize_twice_ABC :
  (0 <= 1)%Z
  /\ rendering_stack state_ABC <> []
  /\ PopAndFinalizeWidgetItems 0 (PopAndFinalizeWidgetItems 1 state_ABC)
     = PopAndFinalizeWidgetItems 0 state_ABC.
Proof.
  split; [lia|]. split; [vm_compute; discriminate|].
  apply (PopAndFinalize_twice 0 1 state_ABC). lia.
Defined.

Lemma nothing_below_a_hidden_widget_responds_mixed :
  distinct_widgets (root_widget_ view_mixed)
  /\ In hidden_panel (preorder (root_widget_ view_mixed))
  /\ IsHidden hidden_panel = true
  /\ In label_in_hidden_panel (descendants hidden_panel)
  /\ handles label_in_hidden_panel (MkPoint 0 0) = true
  /\ match WidgetView_ShouldHandleEvent view_mixed (MkPoint 0 0) with
     | (true, view') =>
         exists responder,
           event_responder_ view' = Some responder
           /\ addr responder <> addr label_in_hidden_panel
     | (false, view') => view' = view_mixed
     end.
Proof.
  split; [distinct_addresses|]. split; [simpl; auto|].
  split; [reflexivity|]. split; [simpl; auto|]. split; [reflexivity|].
  apply (nothing_below_a_hidden_widget_responds view_mixed (MkPoint 0 0)
           hidden_panel label_in_hidden_panel).
  - distinct_addresses.
  - simpl. auto.
  - reflexivity.
  - simpl. auto.
Defined.

Lemma Redraw_runs_one_pass_per_busy_pass_example :
  (busy_passes [2; 1; 0; 5] + 2 <= 4)%nat
  /\ Redrawing.Redraw 4 [2; 1; 0; 5]%nat (Redrawing.idle 0)
     = Some (Redrawing.idle 3).
Proof.
  split; [simpl; lia|].
  apply (Redraw_runs_one_pass_per_busy_pass [2; 1; 0; 5]%nat 4 0).
  simpl. lia.
Defined.

Lemma AddChildren_appends_in_order_example :
  Store.two_widgets !! 1%nat = Some Store.parent_object
  /\ AddChildren 1 [2; 2]%nat Store.two_widgets !! 1%nat
     = Some (Store.MkWidgetObject None None [2; 2]%nat)
  /\ AddChildren 1 [2; 2]%nat Store.two_widgets !! 2%nat
     = Store.two_widgets !! 2%nat.
Proof.
  assert (H : Store.two_widgets !! 1%nat = Some Store.parent_object)
    by apply lookup_insert_eq.
  split; [exact H|].
  destruct (AddChildren_appends_in_order 1 [2; 2]%nat Store.two_widgets
              Store.parent_object H) as (H1 & H2 & _).
  split; [exact H1|]. apply H2. discriminate.
Defined.

Lemma AddChild_shares_a_child_example :
  Store.two_widgets !! 1%nat = Some Store.parent_object
  /\ Store.two_widgets !! 2%nat = Some Store.child_object
  /\ Store.children_
       <$> (Store.AddChild 2 7 (Store.AddChild 1 7 Store.two_widgets) !! 1%nat)
     = Some [7%nat]
  /\ Store.children_
       <$> (Store.AddChild 2 7 (Store.AddChild 1 7 Store.two_widgets) !! 2%nat)
     = Some [7%nat].
Proof.
  assert (H1 : Store.two_widgets !! 1%nat = Some Store.parent_object)
    by apply lookup_insert_eq.
  assert (H2 : Store.two_widgets !! 2%nat = Some Store.child_object).
  { unfold Store.two_widgets. rewrite lookup_insert_ne by discriminate.
    apply lookup_insert_eq. }
  split; [exact H1|]. split; [exact H2|].
  destruct (AddChild_shares_a_child 1 2 7 Store.two_widgets
              Store.parent_object Store.child_object) as [[Hp Hq] _];
    [discriminate|exact H1|exact H2|].
  split; [exact Hp|exact Hq].
Defined.

Lemma added_child_is_tested_first_example :
  ~ In (addr widget_A) (map addr (preorder widget_X))
  /\ ShouldHandleEvent (MkPoint 0 0) (Widget_AddChild widget_A widget_X) None
     = (true, Some widget_X).
Proof.
  assert (H : ~ In (addr widget_A) (map addr (preorder widget_X)))
    by (simpl; intros [E|[]]; discriminate E).
  split; [exact H|].
  rewrite (added_child_is_tested_first (MkPoint 0 0) widget_A widget_X None H).
  reflexivity.
Defined.

Lemma added_child_is_planned_last_example :
  ~ In (addr widget_A) (map addr (preorder widget_X))
  /\ map geometry_widget
         (map item_geometry
              (plan view_ABC 0 1 None (Widget_AddChild widget_A widget_X)))
     = [1; 2; 3; 11]%nat.
Proof.
  assert (H : ~ In (addr widget_A) (map addr (preorder widget_X)))
    by (simpl; intros [E|[]]; discriminate E).
  split; [exact H|].
  rewrite (added_child_is_planned_last view_ABC 0 1 None widget_A widget_X H).
  reflexivity.
Defined.

Lemma excluded_widgets_are_not_rendered_mixed :
  distinct_widgets (root_widget_ view_mixed)
  /\ In hidden_panel (preorder (root_widget_ view_mixed))
  /\ IsHidden hidden_panel = true
  /\ In label_in_hidden_panel (preorder hidden_panel)
  /\ ~ In (addr label_in_hidden_panel) (will_render_calls (Render view_mixed))
  /\ ~ In (addr label_in_hidden_panel)
          (render_on_demand_calls (Render view_mixed)).
Proof.
  split; [distinct_addresses|]. split; [simpl; auto|].
  split; [reflexivity|]. split; [simpl; auto|].
  destruct (excluded_widgets_are_not_rendered view_mixed hidden_panel
              label_in_hidden_panel) as (_ & Hw & Hr & _).
  - distinct_addresses.
  - simpl. auto.
  - left. reflexivity.
  - simpl. auto.
  - split; assumption.
Defined.

(** ** The rounding of binary32 at work *)

(** 0.1f times 3 is 0.3f. *)
Example binary32_rounds_a_product :
  fmul binary32 (13421773 # 134217728) 3 = 5033165 # 16777216.
Proof. reflexivity. Qed.

(** The widget of one point by one point at x = 0.3f: 0.3f + 1 - 1 is below
    0.3f, so line 111 returns, while without rounding the widget gets an
    item. *)
Example rounding_prunes_a_widget :
  fsub binary32 (fadd binary32 (5033165 # 16777216) 1) 1 = 1258291 # 4194304
  /\ PlanItem_rounded binary32 view_scenario 1 1 widget_at_0_3
                      (Some root_item_scenario) = None
  /\ PlanItem view_scenario 1 1 widget_at_0_3 (Some root_item_scenario) <> None.
Proof.
  split; [reflexivity|]. split; [reflexivity|]. vm_compute. discriminate.
Qed.

(** The widget at x = 0.5 that is 1 - 2^-24 wide: 0.5 plus its width is
    1.5, so line 111 does not return and the widget gets an item, while
    without rounding it gets none. *)
Example rounding_plans_a_widget :
  fadd binary32 (1 # 2) (16777215 # 16777216) = 3 # 2
  /\ PlanItem_rounded binary32 view_scenario 1 1 widget_below_one
                      (Some root_item_scenario) <> None
  /\ PlanItem view_scenario 1 1 widget_below_one (Some root_item_scenario)
     = None.
Proof.
  split; [reflexivity|]. split; [vm_compute; discriminate|reflexivity].
Qed.

(** An int beyond 2 ^ 24 is not always a float. *)
Example float_of_int_rounds :
  float_of_int 16777217 = 16777216%Z /\ float_of_int 16777219 = 16777220%Z
  /\ float_of_int (-16777219) = (-16777220)%Z
  /\ float_of_int 2147483647 = 2147483648%Z.
Proof. repeat split; reflexivity. Qed.
